(** * SiteWatch front end: the WebSocket service, the job list and the
    monitoring-core contract

    Shallow embedding of
    - [src/frontend/src/services/websocket.js] (module [WS] and [Singleton]),
    - [src/frontend/src/App.js] and [src/frontend/src/services/api.js]
      (module [App]),
    - [src/frontend/src/components/ScheduledJobs.js] (module [Jobs]),
    and of the monitoring-core contract of the specification (module [Core]).

    JavaScript values are restricted to what the front end handles: JSON
    scalars with integer numbers, and opaque references to heap objects. *)

From stdpp Require Import gmap strings list fin_maps pretty.
From Stdlib Require Import ZArith QArith Lia.

Local Open Scope Z_scope.

(** ** JavaScript values *)

Module JS.

Inductive Value :=
| VUndefined
| VNull
| VBool (b : bool)
| VNum (n : Z)
| VStr (s : string)
| VRef (a : nat).

#[global] Instance Value_eq_dec : EqDecision Value.
Proof. solve_decision. Defined.

(** ECMAScript ToBoolean: [undefined], [null], [false], [0] and the empty
    string are falsy; every object reference is truthy. *)
Definition truthy (v : Value) : bool :=
  match v with
  | VUndefined | VNull => false
  | VBool b => b
  | VNum n => negb (n =? 0)
  | VStr s => negb (String.eqb s "")
  | VRef _ => true
  end.

(** [v === w]: same type and same value; references compare by address. *)
Definition strict_equal (v w : Value) : bool := bool_decide (v = w).

(** A plain object is a finite map from property names to values; reading a
    property that is absent yields [undefined]. *)
Abbreviation Obj := (gmap string Value).

Definition prop (o : Obj) (k : string) : Value := default VUndefined (o !! k).

(** [{...o, k: v}] *)
Definition spread_with (o : Obj) (k : string) (v : Value) : Obj := <[k:=v]> o.

End JS.

(** ** services/websocket.js *)

Module WS.

(** A handler is a JavaScript function; it is identified by its reference. *)
Definition Handler := nat.
Definition Error := string.

(** [Set] of handlers: insertion ordered, no duplicates. *)
Definition Set_add (h : Handler) (s : list Handler) : list Handler :=
  if decide (h ∈ s) then s else s ++ [h].

Definition Set_has (h : Handler) (s : list Handler) : bool :=
  bool_decide (h ∈ s).

Definition Set_delete (h : Handler) (s : list Handler) : list Handler :=
  filter (λ x, x ≠ h) s.

#[global] Arguments Set_add : simpl never.
#[global] Arguments Set_delete : simpl never.
#[global] Arguments Set_has : simpl never.

Inductive ReadyState := CONNECTING | OPEN | CLOSING | CLOSED.

#[global] Instance ReadyState_eq_dec : EqDecision ReadyState.
Proof. solve_decision. Defined.

(** The browser's WebSocket object: its URL, its ready state and the frames
    handed to [send] so far. *)
Record Socket := {
  url : string;
  readyState : ReadyState;
  sent : list string }.

Record WebSocketService := {
  ws : option Socket;
  messageHandlers : list Handler;
  connectHandlers : list Handler;
  disconnectHandlers : list Handler;
  reconnectAttempts : Z;
  maxReconnectAttempts : Z;
  reconnectInterval : Z }.

Definition constructor : WebSocketService :=
  {| ws := None;
     messageHandlers := [];
     connectHandlers := [];
     disconnectHandlers := [];
     reconnectAttempts := 0;
     maxReconnectAttempts := 5;
     reconnectInterval := 1000 |}.

Definition set_ws (o : option Socket) (t : WebSocketService) :=
  {| ws := o;
     messageHandlers := messageHandlers t;
     connectHandlers := connectHandlers t;
     disconnectHandlers := disconnectHandlers t;
     reconnectAttempts := reconnectAttempts t;
     maxReconnectAttempts := maxReconnectAttempts t;
     reconnectInterval := reconnectInterval t |}.

Definition set_messageHandlers (l : list Handler) (t : WebSocketService) :=
  {| ws := ws t;
     messageHandlers := l;
     connectHandlers := connectHandlers t;
     disconnectHandlers := disconnectHandlers t;
     reconnectAttempts := reconnectAttempts t;
     maxReconnectAttempts := maxReconnectAttempts t;
     reconnectInterval := reconnectInterval t |}.

Definition set_connectHandlers (l : list Handler) (t : WebSocketService) :=
  {| ws := ws t;
     messageHandlers := messageHandlers t;
     connectHandlers := l;
     disconnectHandlers := disconnectHandlers t;
     reconnectAttempts := reconnectAttempts t;
     maxReconnectAttempts := maxReconnectAttempts t;
     reconnectInterval := reconnectInterval t |}.

Definition set_disconnectHandlers (l : list Handler) (t : WebSocketService) :=
  {| ws := ws t;
     messageHandlers := messageHandlers t;
     connectHandlers := connectHandlers t;
     disconnectHandlers := l;
     reconnectAttempts := reconnectAttempts t;
     maxReconnectAttempts := maxReconnectAttempts t;
     reconnectInterval := reconnectInterval t |}.

Definition set_reconnectAttempts (n : Z) (t : WebSocketService) :=
  {| ws := ws t;
     messageHandlers := messageHandlers t;
     connectHandlers := connectHandlers t;
     disconnectHandlers := disconnectHandlers t;
     reconnectAttempts := n;
     maxReconnectAttempts := maxReconnectAttempts t;
     reconnectInterval := reconnectInterval t |}.

Section Service.

(** [Data] is a parsed message, [W] the state the handlers act on (the React
    state of the component that registered them), [Message] what callers pass
    to [sendMessage]. *)
Context {Data W Message : Type}.

(** The three handler sets of the service. *)
Inductive Channel := OnMessage | OnConnect | OnDisconnect.

Definition handlers_of (c : Channel) (t : WebSocketService) : list Handler :=
  match c with
  | OnMessage => messageHandlers t
  | OnConnect => connectHandlers t
  | OnDisconnect => disconnectHandlers t
  end.

(** What the service does to the outside, in program order. [Invoked c h arg]
    is the call [h(arg)] made while iterating over the set [c]. *)
Inductive Effect :=
| ConsoleLog (msg : string)
| ConsoleError (msg : string) (err : option Error)
| Invoked (c : Channel) (h : Handler) (arg : option Data)
| SetTimeout (delay : Z)
| NewWebSocket (u : string)
| WsClose.

Record State := {
  this : WebSocketService;
  world : W;
  trace : list Effect }.

(** Completion of a JavaScript statement: normal, or abrupt with an
    exception; the state reached is kept in both cases. *)
Inductive Completion (A : Type) :=
| Normal (a : A) (s : State)
| Throw (e : Error) (s : State).
Arguments Normal {A} a s.
Arguments Throw {A} e s.

Definition M (A : Type) : Type := State → Completion A.

#[local] Instance M_ret : MRet M := λ A a s, Normal a s.

#[local] Instance M_bind : MBind M := λ A B f m s,
  match m s with
  | Normal a s' => f a s'
  | Throw e s' => Throw e s'
  end.

Definition throw {A} (e : Error) : M A := λ s, Throw e s.

(** [try { body } catch (error) { handler(error) }] *)
Definition try_catch (body : M unit) (handler : Error → M unit) : M unit :=
  λ s, match body s with
       | Normal a s' => Normal a s'
       | Throw e s' => handler e s'
       end.

Definition get_this : M WebSocketService := λ s, Normal (this s) s.

Definition modify_this (f : WebSocketService → WebSocketService) : M unit :=
  λ s, Normal () {| this := f (this s); world := world s; trace := trace s |}.

Definition emit (e : Effect) : M unit :=
  λ s, Normal () {| this := this s; world := world s; trace := trace s ++ [e] |}.

Definition console_log (msg : string) : M unit := emit (ConsoleLog msg).

Definition console_error (msg : string) (err : option Error) : M unit :=
  emit (ConsoleError msg err).

(** [collection.forEach(f)]: the callbacks run in insertion order; an
    exception leaving a callback ends the iteration and propagates. *)
Fixpoint forEach (l : list Handler) (f : Handler → M unit) : M unit :=
  match l with
  | [] => mret ()
  | h :: l' => f h ;; forEach l' f
  end.

(** Environment: the behaviour of the registered functions, the browser's
    JSON codec and [window.location]. A handler acts on [W] and returns
    normally ([None]) or throws ([Some e]); it does not call back into the
    service while it is being dispatched. [JSON.stringify] throws on a value
    it cannot serialize (a circular object, a BigInt), and answers
    [undefined] ([None]) or a string otherwise. *)
Variable call : Handler → option Data → W → W * option Error.
Variable JSON_parse : string → Error + Data.
Variable JSON_stringify : Message → Error + option string.
Variable location_protocol : string.
Variable location_hostname : string.
Variable WebSocket_new : string → Error + Socket.

(** [handler(arg)] *)
Definition invoke (c : Channel) (h : Handler) (arg : option Data) : M unit :=
  λ s, let r := call h arg (world s) in
       let s' := {| this := this s; world := r.1;
                    trace := trace s ++ [Invoked c h arg] |} in
       match r.2 with
       | None => Normal () s'
       | Some e => Throw e s'
       end.

Definition addMessageHandler (handler : Handler) : M (M bool) :=
  modify_this (λ t, set_messageHandlers (Set_add handler (messageHandlers t)) t) ;;
  mret (t ← get_this;
        modify_this (λ t, set_messageHandlers (Set_delete handler (messageHandlers t)) t) ;;
        mret (Set_has handler (messageHandlers t))).

Definition addConnectHandler (handler : Handler) : M (M bool) :=
  modify_this (λ t, set_connectHandlers (Set_add handler (connectHandlers t)) t) ;;
  mret (t ← get_this;
        modify_this (λ t, set_connectHandlers (Set_delete handler (connectHandlers t)) t) ;;
        mret (Set_has handler (connectHandlers t))).

Definition addDisconnectHandler (handler : Handler) : M (M bool) :=
  modify_this (λ t, set_disconnectHandlers (Set_add handler (disconnectHandlers t)) t) ;;
  mret (t ← get_this;
        modify_this (λ t, set_disconnectHandlers (Set_delete handler (disconnectHandlers t)) t) ;;
        mret (Set_has handler (disconnectHandlers t))).

(** [ws.onopen] *)
Definition onopen : M unit :=
  console_log "WebSocket connected" ;;
  modify_this (set_reconnectAttempts 0) ;;
  t ← get_this;
  forEach (connectHandlers t) (λ handler,
    try_catch (invoke OnConnect handler None)
              (λ error, console_error "Error in connect handler:" (Some error))).

(** [ws.onmessage] *)
Definition onmessage (event_data : string) : M unit :=
  try_catch
    (data ← match JSON_parse event_data with
            | inr d => mret d
            | inl e => throw e
            end;
     t ← get_this;
     forEach (messageHandlers t) (λ handler,
       try_catch (invoke OnMessage handler (Some data))
                 (λ error, console_error "Error in message handler:" (Some error))))
    (λ error, console_error "Error parsing WebSocket message:" (Some error)).

(** [ws.onerror] *)
Definition onerror (error : Error) : M unit :=
  console_error "WebSocket error:" (Some error).

Definition connect : M unit :=
  try_catch
    (let protocol := if String.eqb location_protocol "https:" then "wss:" else "ws:" in
     let wsUrl := protocol +:+ "//" +:+ location_hostname +:+ ":8081/ws" in
     sock ← match WebSocket_new wsUrl with
            | inr k => emit (NewWebSocket wsUrl) ;; mret k
            | inl e => throw e
            end;
     modify_this (set_ws (Some sock)))
    (λ error, console_error "Error connecting to WebSocket:" (Some error)).

Definition disconnect : M unit :=
  t ← get_this;
  match ws t with
  | Some _ => emit WsClose ;; modify_this (set_ws None)
  | None => mret ()
  end.

(** [ws.send(data)] converts its argument to a string: [undefined] becomes
    the text ['undefined']. *)
Definition frame_of (data : option string) : string := default "undefined" data.

Definition sendMessage (message : Message) : M unit :=
  t ← get_this;
  match ws t with
  | Some k =>
      if decide (readyState k = OPEN)
      then
        data ← match JSON_stringify message with
               | inr d => mret d
               | inl e => throw e
               end;
        modify_this (set_ws (Some {| url := url k; readyState := readyState k;
                                     sent := sent k ++ [frame_of data] |}))
      else console_error "WebSocket is not connected" None
  | None => console_error "WebSocket is not connected" None
  end.

Definition reconnect : M unit :=
  t ← get_this;
  if decide (reconnectAttempts t < maxReconnectAttempts t)
  then
    modify_this (λ t, set_reconnectAttempts (reconnectAttempts t + 1) t) ;;
    t ← get_this;
    console_log ("Attempting to reconnect... (" +:+ pretty (reconnectAttempts t)
                 +:+ "/" +:+ pretty (maxReconnectAttempts t) +:+ ")") ;;
    emit (SetTimeout (reconnectInterval t * reconnectAttempts t))
  else console_error "Max reconnection attempts reached" None.

(** [ws.onclose] *)
Definition onclose : M unit :=
  console_log "WebSocket disconnected" ;;
  t ← get_this;
  forEach (disconnectHandlers t) (λ handler,
    try_catch (invoke OnDisconnect handler None)
              (λ error, console_error "Error in disconnect handler:" (Some error))) ;;
  reconnect.

(** The callbacks the browser runs on behalf of the service: the three
    socket events and the timer armed by [reconnect], whose body is
    [this.connect()]. The ready state of a socket is kept by the browser and
    an event may come from a socket other than the stored one, so the
    callbacks leave [readyState] alone: what is said about sending takes the
    ready state from the state it starts in. *)
Inductive Event :=
| EvOpen
| EvMessage (event_data : string)
| EvClose
| EvError (error : Error)
| EvTimer.

Definition handle (ev : Event) : M unit :=
  match ev with
  | EvOpen => onopen
  | EvMessage d => onmessage d
  | EvClose => onclose
  | EvError e => onerror e
  | EvTimer => connect
  end.

(** Running a sequence of events; an exception escaping a callback would be
    reported by the browser and the next event still runs. *)
Definition state_of {A} (c : Completion A) : State :=
  match c with Normal _ s => s | Throw _ s => s end.

Definition run (evs : list Event) (s : State) : State :=
  foldl (λ s ev, state_of (handle ev s)) s evs.

(** Observations on a trace: the handler calls and the timer delays. *)
Definition invocations (tr : list Effect) : list (Channel * Handler * option Data) :=
  omap (λ e, match e with Invoked c h a => Some (c, h, a) | _ => None end) tr.

Definition timeouts (tr : list Effect) : list Z :=
  omap (λ e, match e with SetTimeout d => Some d | _ => None end) tr.

(** The handler-wrapping callback shared by the three [forEach] loops. *)
Definition guarded (c : Channel) (label : string) (arg : option Data)
    (handler : Handler) : M unit :=
  try_catch (invoke c handler arg) (λ error, console_error label (Some error)).

(** The registration method of each channel. *)
Definition register (c : Channel) : Handler → M (M bool) :=
  match c with
  | OnMessage => addMessageHandler
  | OnConnect => addConnectHandler
  | OnDisconnect => addDisconnectHandler
  end.

#[global] Instance Event_eq_dec : EqDecision Event.
Proof. solve_decision. Defined.

(** Number of close events in a run. *)
Definition closes (evs : list Event) : Z :=
  Z.of_nat (length (filter (λ ev, ev = EvClose) evs)).

(** *** Traces of the dispatch loops *)

Lemma invocations_app tr1 tr2 :
  invocations (tr1 ++ tr2) = invocations tr1 ++ invocations tr2.
Proof. apply omap_app. Qed.

Lemma timeouts_app tr1 tr2 : timeouts (tr1 ++ tr2) = timeouts tr1 ++ timeouts tr2.
Proof. apply omap_app. Qed.

Lemma elem_of_invocations c h a tr :
  Invoked c h a ∈ tr ↔ (c, h, a) ∈ invocations tr.
Proof.
  unfold invocations. rewrite list_elem_of_omap. split.
  - intros Hin. exists (Invoked c h a). auto.
  - intros (e & Hin & He). destruct e; simplify_eq. done.
Qed.

(** One guarded call: it completes normally whatever the handler does, and
    leaves the service object alone. *)
Lemma guarded_spec c label arg h s :
  ∃ s' ext, guarded c label arg h s = Normal () s'
    ∧ this s' = this s
    ∧ trace s' = trace s ++ ext
    ∧ invocations ext = [(c, h, arg)]
    ∧ timeouts ext = [].
Proof.
  unfold guarded, try_catch, invoke, console_error, emit.
  destruct (call h arg (world s)) as [w [e|]]; simpl.
  - eexists _, [Invoked c h arg; ConsoleError label (Some e)]. simpl.
    split_and!; try reflexivity. by rewrite <- app_assoc.
  - eexists _, [Invoked c h arg]. by split_and!.
Qed.

Lemma forEach_guarded c label arg l : ∀ s,
  ∃ s' ext, forEach l (guarded c label arg) s = Normal () s'
    ∧ this s' = this s
    ∧ trace s' = trace s ++ ext
    ∧ invocations ext = map (λ h, (c, h, arg)) l
    ∧ timeouts ext = [].
Proof.
  induction l as [|h l IH]; intros s.
  - exists s, []. simpl. split_and!; try reflexivity. by rewrite app_nil_r.
  - destruct (guarded_spec c label arg h s) as (s1 & e1 & Hrun1 & Hthis1 & Htr1 & Hinv1 & Hto1).
    destruct (IH s1) as (s2 & e2 & Hrun2 & Hthis2 & Htr2 & Hinv2 & Hto2).
    exists s2, (e1 ++ e2). split_and!.
    + cbn [forEach]. unfold mbind, M_bind at 1. by rewrite Hrun1.
    + congruence.
    + by rewrite Htr2, Htr1, app_assoc.
    + by rewrite invocations_app, Hinv1, Hinv2.
    + by rewrite timeouts_app, Hto1, Hto2.
Qed.

Lemma onopen_spec s :
  ∃ s' ext, onopen s = Normal () s'
    ∧ this s' = set_reconnectAttempts 0 (this s)
    ∧ trace s' = trace s ++ ext
    ∧ invocations ext = map (λ h, (OnConnect, h, None)) (connectHandlers (this s))
    ∧ timeouts ext = [].
Proof.
  set (s0 := {| this := set_reconnectAttempts 0 (this s); world := world s;
                trace := trace s ++ [ConsoleLog "WebSocket connected"] |}).
  destruct (forEach_guarded OnConnect "Error in connect handler:" None
              (connectHandlers (this s0)) s0) as (s1 & e1 & Hrun & Hthis & Htr & Hinv & Hto).
  exists s1, (ConsoleLog "WebSocket connected" :: e1). split_and!.
  - exact Hrun.
  - by rewrite Hthis.
  - rewrite Htr. simpl. by rewrite <- app_assoc.
  - exact Hinv.
  - exact Hto.
Qed.

Lemma onmessage_spec event_data s :
  ∃ s' ext, onmessage event_data s = Normal () s'
    ∧ this s' = this s
    ∧ trace s' = trace s ++ ext
    ∧ invocations ext =
        match JSON_parse event_data with
        | inr data => map (λ h, (OnMessage, h, Some data)) (messageHandlers (this s))
        | inl _ => []
        end
    ∧ timeouts ext = [].
Proof.
  unfold onmessage, try_catch at 1.
  destruct (JSON_parse event_data) as [e|data].
  - eexists _, [ConsoleError "Error parsing WebSocket message:" (Some e)].
    by split_and!.
  - destruct (forEach_guarded OnMessage "Error in message handler:" (Some data)
                (messageHandlers (this s)) s) as (s1 & e1 & Hrun & Hthis & Htr & Hinv & Hto).
    exists s1, e1. split_and!; try done.
    unfold mbind, M_bind, mret, M_ret, get_this.
    unfold guarded in Hrun. by rewrite Hrun.
Qed.

Lemma reconnect_spec s :
  ∃ s' ext, reconnect s = Normal () s'
    ∧ trace s' = trace s ++ ext
    ∧ invocations ext = []
    ∧ if decide (reconnectAttempts (this s) < maxReconnectAttempts (this s))
      then this s' = set_reconnectAttempts (reconnectAttempts (this s) + 1) (this s)
           ∧ timeouts ext =
               [reconnectInterval (this s) * (reconnectAttempts (this s) + 1)]
      else this s' = this s ∧ timeouts ext = [].
Proof.
  unfold reconnect, mbind, M_bind, get_this, console_log, console_error, emit.
  destruct (decide (reconnectAttempts (this s) < maxReconnectAttempts (this s))).
  - eexists _, [ConsoleLog _; SetTimeout _]. split; [reflexivity|]. simpl.
    split_and!; try reflexivity. by rewrite <- app_assoc.
  - eexists _, [ConsoleError _ None]. split; [reflexivity|]. by split_and!.
Qed.

Lemma onclose_spec s :
  ∃ s' ext, onclose s = Normal () s'
    ∧ trace s' = trace s ++ ext
    ∧ invocations ext = map (λ h, (OnDisconnect, h, None)) (disconnectHandlers (this s))
    ∧ if decide (reconnectAttempts (this s) < maxReconnectAttempts (this s))
      then this s' = set_reconnectAttempts (reconnectAttempts (this s) + 1) (this s)
           ∧ timeouts ext =
               [reconnectInterval (this s) * (reconnectAttempts (this s) + 1)]
      else this s' = this s ∧ timeouts ext = [].
Proof.
  set (s0 := {| this := this s; world := world s;
                trace := trace s ++ [ConsoleLog "WebSocket disconnected"] |}).
  destruct (forEach_guarded OnDisconnect "Error in disconnect handler:" None
              (disconnectHandlers (this s0)) s0) as (s1 & e1 & Hrun & Hthis & Htr & Hinv & Hto).
  destruct (reconnect_spec s1) as (s2 & e2 & Hrun2 & Htr2 & Hinv2 & Hcase).
  exists s2, (ConsoleLog "WebSocket disconnected" :: e1 ++ e2). split_and!.
  - unfold onclose, mbind, M_bind, console_log, emit, get_this. fold s0.
    unfold guarded in Hrun. by rewrite Hrun.
  - rewrite Htr2, Htr. simpl. by rewrite <- !app_assoc.
  - simpl. by rewrite invocations_app, Hinv, Hinv2, app_nil_r.
  - rewrite Hthis in Hcase. simpl in Hcase. simpl.
    rewrite timeouts_app, Hto. simpl. exact Hcase.
Qed.

Lemma connect_spec s :
  ∃ s' ext o, connect s = Normal () s'
    ∧ this s' = set_ws o (this s)
    ∧ trace s' = trace s ++ ext
    ∧ invocations ext = []
    ∧ timeouts ext = [].
Proof.
  unfold connect, try_catch, mbind, M_bind, console_error, emit.
  destruct (WebSocket_new _) as [e|k]; simpl.
  - eexists _, [ConsoleError _ (Some e)], (ws (this s)). split; [reflexivity|].
    simpl. split_and!; try reflexivity. by destruct (this s).
  - eexists _, [NewWebSocket _], (Some k). split; [reflexivity|]. by split_and!.
Qed.

(** *** One event, then a sequence of events *)

Lemma handle_spec ev s :
  ∃ s' ext, handle ev s = Normal () s'
    ∧ trace s' = trace s ++ ext
    ∧ (∀ c, handlers_of c (this s') = handlers_of c (this s))
    ∧ maxReconnectAttempts (this s') = maxReconnectAttempts (this s)
    ∧ reconnectInterval (this s') = reconnectInterval (this s)
    ∧ (∀ c h a, (c, h, a) ∈ invocations ext → h ∈ handlers_of c (this s))
    ∧ match ev with
      | EvOpen => reconnectAttempts (this s') = 0 ∧ timeouts ext = []
      | EvClose =>
          if decide (reconnectAttempts (this s) < maxReconnectAttempts (this s))
          then reconnectAttempts (this s') = reconnectAttempts (this s) + 1
               ∧ timeouts ext =
                   [reconnectInterval (this s) * (reconnectAttempts (this s) + 1)]
          else reconnectAttempts (this s') = reconnectAttempts (this s)
               ∧ timeouts ext = []
      | _ => reconnectAttempts (this s') = reconnectAttempts (this s)
             ∧ timeouts ext = []
      end.
Proof.
  destruct ev as [|d| |e|]; cbn [handle].
  - destruct (onopen_spec s) as (s' & ext & Hrun & Hthis & Htr & Hinv & Hto).
    exists s', ext. rewrite Hthis. split_and!; try done; try (by intros []).
    intros c h a. rewrite Hinv, list_elem_of_fmap.
    intros (h' & Heq & Hin). by simplify_eq.
  - destruct (onmessage_spec d s) as (s' & ext & Hrun & Hthis & Htr & Hinv & Hto).
    exists s', ext. rewrite Hthis. split_and!; try done.
    intros c h a. rewrite Hinv. destruct (JSON_parse d).
    + by intros ?%elem_of_nil.
    + rewrite list_elem_of_fmap. intros (h' & Heq & Hin). by simplify_eq.
  - destruct (onclose_spec s) as (s' & ext & Hrun & Htr & Hinv & Hcase).
    exists s', ext.
    assert (∃ n, this s' = set_reconnectAttempts n (this s)) as [n Hn].
    { destruct (decide _); destruct Hcase as [Ht _]; [by eexists|].
      exists (reconnectAttempts (this s)). rewrite Ht. by destruct (this s). }
    split_and!; try done; try (by rewrite Hn); try (rewrite Hn; by intros []).
    + intros c h a. rewrite Hinv, list_elem_of_fmap.
      intros (h' & Heq & Hin). by simplify_eq.
    + destruct (decide _); destruct Hcase as [Ht Hto]; by rewrite Ht.
  - eexists _, [ConsoleError _ (Some e)]. split; [reflexivity|]. simpl.
    split_and!; try done. by intros c h a ?%elem_of_nil.
  - destruct (connect_spec s) as (s' & ext & o & Hrun & Hthis & Htr & Hinv & Hto).
    exists s', ext. rewrite Hthis. split_and!; try done; try (by intros []).
    intros c h a. rewrite Hinv. by intros ?%elem_of_nil.
Qed.

Lemma run_cons ev evs s : run (ev :: evs) s = run evs (state_of (handle ev s)).
Proof. reflexivity. Qed.

(** Socket events never change who is registered, and every call they make
    goes to a handler registered on the channel being dispatched. *)
Lemma run_invocations evs : ∀ s,
  ∃ ext, trace (run evs s) = trace s ++ ext
    ∧ (∀ c, handlers_of c (this (run evs s)) = handlers_of c (this s))
    ∧ (∀ c h a, (c, h, a) ∈ invocations ext → h ∈ handlers_of c (this s)).
Proof.
  induction evs as [|ev evs IH]; intros s.
  - exists []. simpl. split_and!; [by rewrite app_nil_r|done|].
    by intros c h a ?%elem_of_nil.
  - rewrite run_cons.
    destruct (handle_spec ev s) as (s1 & e1 & Hrun & Htr & Hsets & _ & _ & Hinv & _).
    rewrite Hrun. cbn [state_of].
    destruct (IH s1) as (e2 & Htr2 & Hsets2 & Hinv2).
    exists (e1 ++ e2). split_and!.
    + by rewrite Htr2, Htr, app_assoc.
    + intros c. by rewrite Hsets2.
    + intros c h a. rewrite invocations_app, elem_of_app. intros [Hin|Hin].
      * by apply (Hinv c h a).
      * rewrite <- Hsets. by apply Hinv2 with a.
Qed.

(** Timers armed by a run of events with no successful open in it: one per
    close, the [j]-th with delay [reconnectInterval * j], until the counter
    reaches [maxReconnectAttempts]. *)
Lemma run_timeouts evs : ∀ s,
  EvOpen ∉ evs →
  reconnectAttempts (this s) ≤ maxReconnectAttempts (this s) →
  let a := reconnectAttempts (this s) in
  let k := Z.min (closes evs) (maxReconnectAttempts (this s) - a) in
  timeouts (trace (run evs s))
    = timeouts (trace s) ++ ((λ j, reconnectInterval (this s) * j) <$> seqZ (a + 1) k)
  ∧ reconnectAttempts (this (run evs s)) = a + k
  ∧ maxReconnectAttempts (this (run evs s)) = maxReconnectAttempts (this s)
  ∧ reconnectInterval (this (run evs s)) = reconnectInterval (this s).
Proof.
  unfold closes.
  induction evs as [|ev evs IH]; intros s Hopen Hle; cbn zeta.
  - simpl. rewrite Z.min_l by lia. simpl. rewrite app_nil_r. split_and!; [done|lia|done|done].
  - rewrite run_cons.
    destruct (handle_spec ev s) as (s1 & e1 & Hrun & Htr & _ & Hmax & Hint & _ & Hcase).
    rewrite Hrun. cbn [state_of].
    apply not_elem_of_cons in Hopen as [Hne Hopen].
    assert (reconnectAttempts (this s1) ≤ maxReconnectAttempts (this s1)) as Hle1.
    { rewrite Hmax. destruct ev; try done; try (destruct Hcase as [-> _]; lia).
      destruct (decide _); destruct Hcase as [-> _]; lia. }
    destruct (IH s1 Hopen Hle1) as (IHt & IHa & -> & ->). cbn zeta in IHt, IHa.
    rewrite IHt, IHa, Htr, timeouts_app, Hmax, Hint, <- app_assoc.
    rewrite filter_cons.
    destruct ev; try done;
      try (destruct Hcase as [-> ->]; rewrite decide_False by done; done).
    rewrite decide_True by done. cbn [length]. rewrite Nat2Z.inj_succ.
    set (c := Z.of_nat (length (filter (λ ev, ev = EvClose) evs))) in *.
    assert (0 ≤ c) by (unfold c; lia).
    destruct (decide _) as [Hlt|Hge]; destruct Hcase as [-> ->].
    + split_and!; [|lia|done|done].
      rewrite (seqZ_cons (reconnectAttempts (this s) + 1)) by lia.
      rewrite fmap_cons. simpl. do 4 f_equal; lia.
    + replace (Z.min c _) with 0 by lia. replace (Z.min (Z.succ c) _) with 0 by lia.
      done.
Qed.

(** *** Registration and its cleanup handle *)

Lemma Set_delete_not_elem (h : Handler) (l : list Handler) : h ∉ Set_delete h l.
Proof. unfold Set_delete. rewrite list_elem_of_filter. tauto. Qed.

Lemma Set_delete_add_fresh (h : Handler) (l : list Handler) :
  h ∉ l → Set_delete h (Set_add h l) = l.
Proof.
  intros Hnotin. unfold Set_add, Set_delete. rewrite decide_False by done.
  rewrite filter_app, filter_cons, decide_False by tauto.
  rewrite filter_nil, app_nil_r.
  induction l as [|x l IH]; [done|].
  apply not_elem_of_cons in Hnotin as [Hne Hnotin].
  rewrite filter_cons, decide_True by done. by rewrite IH.
Qed.

Lemma Set_add_elem (h : Handler) (l : list Handler) : h ∈ Set_add h l.
Proof.
  unfold Set_add. destruct (decide (h ∈ l)); [done|].
  rewrite elem_of_app, list_elem_of_singleton. by right.
Qed.

Lemma register_cleanup c handler s :
  ∃ cleanup s1 s2,
    register c handler s = Normal cleanup s1
    ∧ cleanup s1 = Normal true s2
    ∧ handlers_of c (this s1) = Set_add handler (handlers_of c (this s))
    ∧ handlers_of c (this s2) = Set_delete handler (handlers_of c (this s1))
    ∧ (handler ∉ handlers_of c (this s) → s2 = s).
Proof.
  destruct c; cbn [register handlers_of];
    (eexists _, _, _; split; [reflexivity|]; split;
     [ unfold mbind, M_bind, get_this, modify_this, mret, M_ret; cbn;
       unfold Set_has; rewrite bool_decide_eq_true_2 by apply Set_add_elem;
       reflexivity
     | cbn; split_and!; try reflexivity;
       intros Hfresh; rewrite Set_delete_add_fresh by done;
       by destruct s as [[] ? ?] ]).
Qed.

(** C3 (amended). Registering a handler that is not yet in the set and then
    calling the returned cleanup function restores the service state exactly;
    for every handler, registered before or not, the handler is in the set
    after registration, out of it after cleanup, and no later socket event
    calls it on that channel: whatever the trace held before, the part of
    the trace that any later run of events adds contains no call of it. *)
Theorem unsubscribe_handle_fresh_round_trip c handler s :
  ∃ cleanup s1 s2,
    register c handler s = Normal cleanup s1
    ∧ cleanup s1 = Normal true s2
    ∧ handler ∈ handlers_of c (this s1)
    ∧ (handler ∉ handlers_of c (this s2))
    ∧ (handler ∉ handlers_of c (this s) → s2 = s)
    ∧ (∀ evs, ∃ ext, trace (run evs s2) = trace s2 ++ ext
                     ∧ ∀ a, Invoked c handler a ∉ ext).
Proof.
  destruct (register_cleanup c handler s)
    as (cleanup & s1 & s2 & Hreg & Hclean & Hadd & Hdel & Hfresh).
  exists cleanup, s1, s2. split_and!; try done.
  - rewrite Hadd. apply Set_add_elem.
  - rewrite Hdel. apply Set_delete_not_elem.
  - intros evs.
    destruct (run_invocations evs s2) as (ext & Htrace & _ & Hinv).
    exists ext. split; [exact Htrace|]. intros a Hnew.
    apply elem_of_invocations, Hinv in Hnew.
    rewrite Hdel in Hnew. by apply Set_delete_not_elem in Hnew.
Qed.

(** *** Dispatch *)

(** C2. Whatever the registered functions do, [ws.onmessage], [ws.onopen]
    and [ws.onclose] complete normally, and the calls they make are exactly
    one per registered handler, in registration order, each with the same
    parsed message (with no argument for connect and disconnect); a message
    that does not parse calls nobody. After the disconnect handlers,
    [reconnect] still runs. *)
Theorem handler_errors_contained event_data s :
  (∃ s' ext, onmessage event_data s = Normal () s'
     ∧ trace s' = trace s ++ ext
     ∧ invocations ext =
         match JSON_parse event_data with
         | inr data => map (λ h, (OnMessage, h, Some data)) (messageHandlers (this s))
         | inl _ => []
         end)
  ∧ (∃ s' ext, onopen s = Normal () s'
       ∧ trace s' = trace s ++ ext
       ∧ invocations ext = map (λ h, (OnConnect, h, None)) (connectHandlers (this s)))
  ∧ (∃ s' ext, onclose s = Normal () s'
       ∧ trace s' = trace s ++ ext
       ∧ invocations ext = map (λ h, (OnDisconnect, h, None)) (disconnectHandlers (this s))
       ∧ timeouts ext =
           if decide (reconnectAttempts (this s) < maxReconnectAttempts (this s))
           then [reconnectInterval (this s) * (reconnectAttempts (this s) + 1)]
           else []).
Proof.
  split_and!.
  - destruct (onmessage_spec event_data s) as (s' & ext & ? & ? & ? & ? & ?).
    by exists s', ext.
  - destruct (onopen_spec s) as (s' & ext & ? & ? & ? & ? & ?). by exists s', ext.
  - destruct (onclose_spec s) as (s' & ext & ? & ? & ? & Hcase).
    exists s', ext. split_and!; try done.
    by destruct (decide _); destruct Hcase.
Qed.

(** *** Sending *)

(** C4 (amended). Without a socket, or with a socket that is not OPEN,
    [sendMessage] returns normally for every message, hands nothing to the
    socket and only logs the failure. With an OPEN socket: when
    [JSON.stringify(message)] answers a string, [sendMessage] returns normally
    and hands the socket exactly that string, logging nothing (the text
    ['undefined'] when the answer is [undefined]); when [JSON.stringify]
    throws, the exception leaves [sendMessage] and the state is untouched, so
    nothing is sent and nothing is logged. *)
Theorem sendMessage_outcomes message s :
  ((∀ k, ws (this s) = Some k → readyState k ≠ OPEN) →
   ∃ s', sendMessage message s = Normal () s'
     ∧ this s' = this s
     ∧ world s' = world s
     ∧ trace s' = trace s ++ [ConsoleError "WebSocket is not connected" None])
  ∧ (∀ k, ws (this s) = Some k → readyState k = OPEN →
     (∀ data, JSON_stringify message = inr data →
        ∃ s' k', sendMessage message s = Normal () s'
          ∧ ws (this s') = Some k'
          ∧ sent k' = sent k ++ [frame_of data]
          ∧ (∀ payload, data = Some payload → sent k' = sent k ++ [payload])
          ∧ readyState k' = OPEN
          ∧ world s' = world s
          ∧ trace s' = trace s)
     ∧ (∀ e, JSON_stringify message = inl e → sendMessage message s = Throw e s)).
Proof.
  unfold sendMessage, mbind, M_bind, get_this. split.
  - intros Hnot. destruct (ws (this s)) as [k|] eqn:Hws.
    + rewrite decide_False by by apply Hnot. by eexists.
    + by eexists.
  - intros k Hws Hopen. rewrite Hws, decide_True by done. split.
    + intros data ->. eexists _, _. split; [reflexivity|]. cbn.
      split_and!; try done. by intros payload ->.
    + by intros e ->.
Qed.

(** *** Reconnection *)

(** C1 (amended). Starting with the counter at zero (a new service, or right
    after a successful open) and the constructor's limits, the timers armed
    during any run of events without a successful open are, in order, one per
    close with delays 1000, 2000, ... growing linearly, five at most; once
    five closes have happened no later close arms a timer. *)
Theorem reconnect_backoff_linear_capped evs s :
  reconnectAttempts (this s) = 0 →
  maxReconnectAttempts (this s) = 5 →
  reconnectInterval (this s) = 1000 →
  EvOpen ∉ evs →
  timeouts (trace (run evs s))
    = timeouts (trace s) ++ ((λ j, 1000 * j) <$> seqZ 1 (Z.min (closes evs) 5))
  ∧ (5 ≤ closes evs →
     ∀ evs', EvOpen ∉ evs' →
       timeouts (trace (run evs' (run evs s))) = timeouts (trace (run evs s))).
Proof.
  intros Ha Hmax Hint Hopen.
  destruct (run_timeouts evs s Hopen) as (Hto & Hatt & Hmax' & Hint'); [lia|].
  cbn zeta in Hto, Hatt. rewrite Ha, Hmax, Hint in *.
  replace (5 - 0) with 5 in * by lia. split; [exact Hto|].
  intros Hfive evs' Hopen'.
  destruct (run_timeouts evs' (run evs s) Hopen') as (Hto' & _); [lia|].
  cbn zeta in Hto'. rewrite Hto', Hatt, Hmax'.
  replace (Z.min (closes evs') _) with 0 by (unfold closes in *; lia).
  simpl. by rewrite app_nil_r.
Qed.

(** *** The handlers' effect on the world *)

(** Applying the handlers of a list in order; the effect of a handler that
    throws is kept. *)
Definition apply_handlers (arg : option Data) (l : list Handler) (w : W) : W :=
  foldl (λ w h, (call h arg w).1) w l.

(** The closure returned by the registration method of channel [c]. *)
Definition unregister (c : Channel) (handler : Handler) : M bool :=
  match c with
  | OnMessage =>
      t ← get_this;
      modify_this (λ t, set_messageHandlers (Set_delete handler (messageHandlers t)) t) ;;
      mret (Set_has handler (messageHandlers t))
  | OnConnect =>
      t ← get_this;
      modify_this (λ t, set_connectHandlers (Set_delete handler (connectHandlers t)) t) ;;
      mret (Set_has handler (connectHandlers t))
  | OnDisconnect =>
      t ← get_this;
      modify_this (λ t, set_disconnectHandlers (Set_delete handler (disconnectHandlers t)) t) ;;
      mret (Set_has handler (disconnectHandlers t))
  end.

(** The URL [connect] opens. *)
Definition connect_url : string :=
  (if String.eqb location_protocol "https:" then "wss:" else "ws:")
  +:+ "//" +:+ location_hostname +:+ ":8081/ws".

Lemma register_returns_unregister c handler s :
  register c handler s
  = Normal (unregister c handler)
      {| this := match c with
                 | OnMessage =>
                     set_messageHandlers (Set_add handler (messageHandlers (this s))) (this s)
                 | OnConnect =>
                     set_connectHandlers (Set_add handler (connectHandlers (this s))) (this s)
                 | OnDisconnect =>
                     set_disconnectHandlers (Set_add handler (disconnectHandlers (this s))) (this s)
                 end;
         world := world s; trace := trace s |}.
Proof. by destruct c. Qed.

Lemma guarded_world c label arg h s :
  world (state_of (guarded c label arg h s)) = (call h arg (world s)).1.
Proof.
  unfold guarded, try_catch, invoke, console_error, emit.
  by destruct (call h arg (world s)) as [w [e|]].
Qed.

Lemma forEach_guarded_world c label arg l : ∀ s,
  world (state_of (forEach l (guarded c label arg) s)) = apply_handlers arg l (world s).
Proof.
  induction l as [|h l IH]; intros s; [done|].
  destruct (guarded_spec c label arg h s) as (s1 & e1 & Hrun1 & _).
  pose proof (guarded_world c label arg h s) as Hw. rewrite Hrun1 in Hw. cbn in Hw.
  cbn [forEach]. unfold mbind, M_bind at 1. rewrite Hrun1.
  unfold mbind, M_bind in IH. rewrite IH, Hw. done.
Qed.

(** The world after one event: the handlers of the dispatched set applied in
    order, and nothing else. *)
Lemma handle_world ev s :
  world (state_of (handle ev s)) =
    match ev with
    | EvOpen => apply_handlers None (connectHandlers (this s)) (world s)
    | EvMessage d =>
        match JSON_parse d with
        | inr data => apply_handlers (Some data) (messageHandlers (this s)) (world s)
        | inl _ => world s
        end
    | EvClose => apply_handlers None (disconnectHandlers (this s)) (world s)
    | EvError _ | EvTimer => world s
    end.
Proof.
  destruct ev as [|d| |e|]; cbn [handle].
  - set (s0 := {| this := set_reconnectAttempts 0 (this s); world := world s;
                  trace := trace s ++ [ConsoleLog "WebSocket connected"] |}).
    exact (forEach_guarded_world OnConnect "Error in connect handler:" None
             (connectHandlers (this s)) s0).
  - unfold onmessage, try_catch at 1. destruct (JSON_parse d) as [e|data]; [done|].
    pose proof (forEach_guarded_world OnMessage "Error in message handler:" (Some data)
                  (messageHandlers (this s)) s) as Hw.
    destruct (forEach_guarded OnMessage "Error in message handler:" (Some data)
                (messageHandlers (this s)) s) as (s1 & e1 & Hrun & _).
    rewrite Hrun in Hw. unfold guarded in Hrun.
    unfold mbind, M_bind, mret, M_ret, get_this. by rewrite Hrun.
  - set (s0 := {| this := this s; world := world s;
                  trace := trace s ++ [ConsoleLog "WebSocket disconnected"] |}).
    pose proof (forEach_guarded_world OnDisconnect "Error in disconnect handler:" None
                  (disconnectHandlers (this s)) s0) as Hw.
    destruct (forEach_guarded OnDisconnect "Error in disconnect handler:" None
                (disconnectHandlers (this s0)) s0) as (s1 & e1 & Hrun & _).
    cbn [this s0] in Hrun. rewrite Hrun in Hw. cbn [state_of] in Hw.
    unfold guarded in Hrun.
    unfold onclose, mbind, M_bind, console_log, emit, get_this. fold s0.
    cbn [this s0]. rewrite Hrun.
    cbn [world s0] in Hw. rewrite <- Hw.
    unfold reconnect, mbind, M_bind, get_this. by destruct (decide _).
  - done.
  - unfold connect, try_catch, mbind, M_bind. by destruct (WebSocket_new _).
Qed.

(** *** Runs of events: limits, counter and timers *)

Lemma run_app evs1 evs2 s : run (evs1 ++ evs2) s = run evs2 (run evs1 s).
Proof. unfold run. apply foldl_app. Qed.

Lemma run_limits evs : ∀ s,
  maxReconnectAttempts (this (run evs s)) = maxReconnectAttempts (this s)
  ∧ reconnectInterval (this (run evs s)) = reconnectInterval (this s).
Proof.
  induction evs as [|ev evs IH]; intros s; [done|].
  rewrite run_cons.
  destruct (handle_spec ev s) as (s1 & e1 & Hrun & _ & _ & Hmax & Hint & _).
  rewrite Hrun. cbn [state_of]. destruct (IH s1) as [-> ->]. done.
Qed.

(** X1. Whatever the events, opens included: the counter stays between zero and
    the limit, at most one timer is armed per close, and every delay is the
    interval times an attempt number between one and the limit. *)
Theorem reconnect_delays_bounded evs : ∀ s,
  0 ≤ reconnectAttempts (this s) ≤ maxReconnectAttempts (this s) →
  0 ≤ reconnectAttempts (this (run evs s)) ≤ maxReconnectAttempts (this s)
  ∧ ∃ ext, trace (run evs s) = trace s ++ ext
      ∧ Z.of_nat (length (timeouts ext)) ≤ closes evs
      ∧ ∀ d, d ∈ timeouts ext →
          ∃ j, 1 ≤ j ≤ maxReconnectAttempts (this s)
               ∧ d = reconnectInterval (this s) * j.
Proof.
  unfold closes.
  induction evs as [|ev evs IH]; intros s Hle.
  - split; [done|]. exists []. cbn. split_and!; [by rewrite app_nil_r|done|].
    by intros d ?%elem_of_nil.
  - rewrite run_cons.
    destruct (handle_spec ev s) as (s1 & e1 & Hrun & Htr & _ & Hmax & Hint & _ & Hcase).
    rewrite Hrun. cbn [state_of].
    assert (0 ≤ reconnectAttempts (this s1) ≤ maxReconnectAttempts (this s1)
            ∧ Z.of_nat (length (timeouts e1))
              ≤ Z.of_nat (length (filter (λ ev, ev = EvClose) [ev]))
            ∧ ∀ d, d ∈ timeouts e1 →
                ∃ j, 1 ≤ j ≤ maxReconnectAttempts (this s)
                     ∧ d = reconnectInterval (this s) * j) as (Hle1 & Hlen1 & Hd1).
    { rewrite Hmax.
      destruct ev; try (destruct Hcase as [-> ->]; split_and!;
                        [lia|lia|done|by intros d ?%elem_of_nil]).
      destruct (decide _) as [Hlt|Hge]; destruct Hcase as [-> ->].
      - split_and!; [lia|lia|done|].
        intros d ->%list_elem_of_singleton. eexists. split; [|done]. lia.
      - split_and!; [lia|lia|done|]. by intros d ?%elem_of_nil. }
    destruct (IH s1 Hle1) as (Hle2 & e2 & Htr2 & Hlen2 & Hd2).
    rewrite Hmax in Hle2. split; [done|].
    exists (e1 ++ e2). split_and!.
    + by rewrite Htr2, Htr, app_assoc.
    + rewrite timeouts_app, length_app.
      change (ev :: evs) with ([ev] ++ evs). rewrite filter_app, length_app. lia.
    + intros d. rewrite timeouts_app, elem_of_app. intros [Hin|Hin]; [by apply Hd1|].
      destruct (Hd2 d Hin) as (j & Hj & ->). exists j. by rewrite <- Hmax, <- Hint.
Qed.

(** X2. A successful open gives the whole budget back: the counter is zero
    again, and the next close arms a timer with the shortest delay. *)
Theorem open_restores_reconnect_budget evs s :
  0 < maxReconnectAttempts (this s) →
  let s1 := run (evs ++ [EvOpen]) s in
  reconnectAttempts (this s1) = 0
  ∧ timeouts (trace (run [EvClose] s1))
    = timeouts (trace s1) ++ [reconnectInterval (this s)]
  ∧ reconnectAttempts (this (run [EvClose] s1)) = 1.
Proof.
  intros Hmax s1. unfold s1. rewrite run_app.
  destruct (run_limits evs s) as [Hm Hi].
  set (s0 := run evs s) in *.
  destruct (handle_spec EvOpen s0) as (s2 & e2 & Hrun & _ & _ & Hm2 & Hi2 & _ & Ha & _).
  cbn [run foldl]. rewrite Hrun. cbn [state_of].
  destruct (handle_spec EvClose s2) as (s3 & e3 & Hrun3 & Htr3 & _ & _ & _ & _ & Hcase).
  rewrite Hrun3. cbn [state_of].
  rewrite decide_True in Hcase by lia. destruct Hcase as [Ha3 Hto3].
  split_and!; [done| |lia].
  rewrite Htr3, timeouts_app, Hto3, Ha, Hi2, Hi. do 2 f_equal. lia.
Qed.

(** *** [connect] and [disconnect] *)

(** X3. [connect] never throws. When the constructor succeeds the new socket
    replaces the old one and nothing else changes; when it throws, the error
    is logged and the service keeps the socket it had. The scheme is secure
    exactly on an https page. *)
Theorem connect_outcome s :
  (∀ sock, WebSocket_new connect_url = inr sock →
     connect s = Normal () {| this := set_ws (Some sock) (this s); world := world s;
                               trace := trace s ++ [NewWebSocket connect_url] |})
  ∧ (∀ e, WebSocket_new connect_url = inl e →
     connect s = Normal () {| this := this s; world := world s;
                               trace := trace s ++
                                 [ConsoleError "Error connecting to WebSocket:" (Some e)] |})
  ∧ (location_protocol = "https:" →
     connect_url = "wss://" +:+ location_hostname +:+ ":8081/ws")
  ∧ (location_protocol ≠ "https:" →
     connect_url = "ws://" +:+ location_hostname +:+ ":8081/ws").
Proof.
  split_and!.
  - intros sock Hnew. unfold connect, try_catch, mbind, M_bind. fold connect_url.
    by rewrite Hnew.
  - intros e Hnew. unfold connect, try_catch, mbind, M_bind. fold connect_url.
    by rewrite Hnew.
  - intros Hs. unfold connect_url. rewrite Hs. reflexivity.
  - intros Hne. unfold connect_url.
    by destruct (String.eqb_spec location_protocol "https:").
Qed.

Lemma disconnect_forgets_socket_aux s :
  ∃ s1, disconnect s = Normal () s1
    ∧ this s1 = set_ws None (this s)
    ∧ timeouts (trace s1) = timeouts (trace s).
Proof.
  unfold disconnect, mbind, M_bind, get_this.
  destruct (ws (this s)) as [k|] eqn:Hws.
  - eexists. split; [reflexivity|]. cbn. split; [done|].
    by rewrite timeouts_app, app_nil_r.
  - exists s. split_and!; try done. destruct s as [[] ? ?]. cbn in *. by subst.
Qed.

(** X4. [disconnect] closes the socket if there is one and forgets it, touching
    nothing else; a second [disconnect] does nothing at all, and a
    [sendMessage] after it only logs. *)
Theorem disconnect_forgets_socket message s :
  ∃ s1, disconnect s = Normal () s1
    ∧ this s1 = set_ws None (this s)
    ∧ world s1 = world s
    ∧ trace s1 = trace s ++ (if ws (this s) is Some _ then [WsClose] else [])
    ∧ disconnect s1 = Normal () s1
    ∧ sendMessage message s1
      = Normal () {| this := this s1; world := world s1;
                     trace := trace s1 ++ [ConsoleError "WebSocket is not connected" None] |}.
Proof.
  unfold disconnect, mbind, M_bind, get_this.
  destruct (ws (this s)) as [k|] eqn:Hws.
  - eexists. split; [reflexivity|]. cbn. split_and!; try done.
  - exists s. rewrite app_nil_r.
    assert (set_ws None (this s) = this s) as Hsame.
    { destruct s as [[] ? ?]. cbn in *. by subst. }
    split_and!; try done; try (by rewrite ?Hws);
      unfold sendMessage, mbind, M_bind, get_this; by rewrite Hws.
Qed.

(** X5. [disconnect] does not switch reconnection off: when the close event of
    the socket it closed arrives, a timer is armed as for any other close,
    and when that timer fires the service is connected to a new socket. *)
Theorem disconnect_then_close_reconnects s sock :
  reconnectAttempts (this s) < maxReconnectAttempts (this s) →
  WebSocket_new connect_url = inr sock →
  let s' := run [EvClose; EvTimer] (state_of (disconnect s)) in
  ws (this s') = Some sock
  ∧ timeouts (trace s')
    = timeouts (trace s)
        ++ [reconnectInterval (this s) * (reconnectAttempts (this s) + 1)].
Proof.
  intros Hlt Hnew.
  destruct (disconnect_forgets_socket_aux s) as (s1 & Hd & Hthis & Htr).
  rewrite Hd. cbn [state_of run foldl].
  destruct (onclose_spec s1) as (s2 & e2 & Hrun & Htr2 & _ & Hcase).
  cbn [handle]. rewrite Hrun. cbn [state_of].
  rewrite Hthis in Hcase. cbn in Hcase. rewrite decide_True in Hcase by done.
  destruct Hcase as [Hthis2 Hto2].
  unfold connect, try_catch, mbind, M_bind. fold connect_url. rewrite Hnew. cbn.
  split; [done|].
  rewrite timeouts_app, Htr2, timeouts_app, Hto2, Htr. cbn.
  by rewrite app_nil_r.
Qed.

(** *** Registration as a set *)

#[global] Instance Channel_eq_dec : EqDecision Channel.
Proof. solve_decision. Defined.

Lemma Set_add_NoDup (h : Handler) (l : list Handler) : NoDup l → NoDup (Set_add h l).
Proof.
  intros Hl. unfold Set_add. destruct (decide (h ∈ l)); [done|].
  apply NoDup_app. split_and!; [done| |apply NoDup_singleton].
  intros x Hx ->%list_elem_of_singleton. done.
Qed.

Lemma Set_delete_NoDup (h : Handler) (l : list Handler) : NoDup l → NoDup (Set_delete h l).
Proof. apply NoDup_filter. Qed.

Lemma Set_add_again (h : Handler) (l : list Handler) : Set_add h (Set_add h l) = Set_add h l.
Proof. unfold Set_add at 1. by rewrite decide_True by apply Set_add_elem. Qed.

Lemma Set_delete_again (h : Handler) (l : list Handler) :
  Set_delete h (Set_delete h l) = Set_delete h l.
Proof.
  unfold Set_delete. induction l as [|x l IH]; [done|].
  rewrite (filter_cons _ x l). destruct (decide (x ≠ h)); [|done].
  rewrite filter_cons, decide_True by done. by rewrite IH.
Qed.

Lemma filter_absent (h : Handler) (l : list Handler) :
  h ∉ l → filter (λ x, x = h) l = [].
Proof.
  induction l as [|x l IH]; [done|].
  intros [Hne Hl]%not_elem_of_cons.
  rewrite filter_cons, decide_False by done. by apply IH.
Qed.

Lemma NoDup_count_one (h : Handler) (l : list Handler) :
  NoDup l → h ∈ l → length (filter (λ x, x = h) l) = 1%nat.
Proof.
  induction 1 as [|x l Hx Hl IH]; [by intros ?%elem_of_nil|].
  intros [->|Hin]%elem_of_cons.
  - rewrite filter_cons, decide_True by done. cbn. by rewrite filter_absent.
  - rewrite filter_cons, decide_False; [by apply IH|]. intros ->. done.
Qed.

(** X6. Registering the same function twice is registering it once: the second
    call changes nothing, and in a duplicate-free set the function occurs
    once, so each event calls it once. *)
Theorem register_twice_is_once c handler s :
  ∃ cleanup s1,
    register c handler s = Normal cleanup s1
    ∧ register c handler s1 = Normal cleanup s1
    ∧ (NoDup (handlers_of c (this s)) →
       NoDup (handlers_of c (this s1))
       ∧ length (filter (λ h, h = handler) (handlers_of c (this s1))) = 1%nat).
Proof.
  rewrite register_returns_unregister. eexists _, _. split; [reflexivity|].
  split.
  - rewrite register_returns_unregister. f_equal.
    destruct c; cbn; by rewrite Set_add_again.
  - intros Hnd.
    assert (handlers_of c (this {| this := match c with
                 | OnMessage =>
                     set_messageHandlers (Set_add handler (messageHandlers (this s))) (this s)
                 | OnConnect =>
                     set_connectHandlers (Set_add handler (connectHandlers (this s))) (this s)
                 | OnDisconnect =>
                     set_disconnectHandlers (Set_add handler (disconnectHandlers (this s))) (this s)
                 end; world := world s; trace := trace s |})
            = Set_add handler (handlers_of c (this s))) as -> by by destruct c.
    split; [by apply Set_add_NoDup|].
    apply NoDup_count_one; [by apply Set_add_NoDup|apply Set_add_elem].
Qed.

Lemma cleanup_frame_aux c handler s :
  ∃ s1 b, unregister c handler s = Normal b s1
    ∧ handlers_of c (this s1) = Set_delete handler (handlers_of c (this s))
    ∧ (∀ c', c' ≠ c → handlers_of c' (this s1) = handlers_of c' (this s))
    ∧ reconnectAttempts (this s1) = reconnectAttempts (this s)
    ∧ maxReconnectAttempts (this s1) = maxReconnectAttempts (this s)
    ∧ reconnectInterval (this s1) = reconnectInterval (this s).
Proof.
  destruct c; (eexists _, _; split; [reflexivity|]); cbn;
    (split_and!; try done; by intros []).
Qed.

(** X7. The cleanup closure removes its own function from its own set and
    nothing else: the other functions stay in their order, the other two sets
    and the rest of the state are untouched. It answers whether the function
    was registered, and calling it again answers [false] and changes nothing. *)
Theorem cleanup_frame c handler s :
  ∃ s1, unregister c handler s = Normal (Set_has handler (handlers_of c (this s))) s1
    ∧ handlers_of c (this s1) = filter (λ h, h ≠ handler) (handlers_of c (this s))
    ∧ (∀ c', c' ≠ c → handlers_of c' (this s1) = handlers_of c' (this s))
    ∧ ws (this s1) = ws (this s)
    ∧ reconnectAttempts (this s1) = reconnectAttempts (this s)
    ∧ world s1 = world s
    ∧ trace s1 = trace s
    ∧ unregister c handler s1 = Normal false s1.
Proof.
  assert (∀ l : list Handler, Set_has handler (Set_delete handler l) = false) as Hgone.
  { intros l. unfold Set_has, Set_delete. apply bool_decide_eq_false_2.
    rewrite list_elem_of_filter. intros [Hne _]. by apply Hne. }
  destruct c.
  - exists {| this := set_messageHandlers
                        (Set_delete handler (messageHandlers (this s))) (this s);
              world := world s; trace := trace s |}.
    split; [reflexivity|]. cbn.
    repeat (split; [first [reflexivity | intros []; intros; first [reflexivity|congruence]]|]).
    unfold mbind, M_bind, get_this, modify_this, mret, M_ret. cbn.
    rewrite Set_delete_again, Hgone. reflexivity.
  - exists {| this := set_connectHandlers
                        (Set_delete handler (connectHandlers (this s))) (this s);
              world := world s; trace := trace s |}.
    split; [reflexivity|]. cbn.
    repeat (split; [first [reflexivity | intros []; intros; first [reflexivity|congruence]]|]).
    unfold mbind, M_bind, get_this, modify_this, mret, M_ret. cbn.
    rewrite Set_delete_again, Hgone. reflexivity.
  - exists {| this := set_disconnectHandlers
                        (Set_delete handler (disconnectHandlers (this s))) (this s);
              world := world s; trace := trace s |}.
    split; [reflexivity|]. cbn.
    repeat (split; [first [reflexivity | intros []; intros; first [reflexivity|congruence]]|]).
    unfold mbind, M_bind, get_this, modify_this, mret, M_ret. cbn.
    rewrite Set_delete_again, Hgone. reflexivity.
Qed.

(** *** The public operations together *)

Inductive Action :=
| DoRegister (c : Channel) (h : Handler)
| DoCleanup (c : Channel) (h : Handler)
| DoConnect
| DoDisconnect
| DoSend (message : Message)
| DoEvent (ev : Event).

Definition throws {A} (c : Completion A) : bool :=
  match c with Normal _ _ => false | Throw _ _ => true end.

(** One call from outside: whether it threw, and the state it left. *)
Definition perform (a : Action) (s : State) : bool * State :=
  match a with
  | DoRegister c h => let r := register c h s in (throws r, state_of r)
  | DoCleanup c h => let r := unregister c h s in (throws r, state_of r)
  | DoConnect => let r := connect s in (throws r, state_of r)
  | DoDisconnect => let r := disconnect s in (throws r, state_of r)
  | DoSend m => let r := sendMessage m s in (throws r, state_of r)
  | DoEvent ev => let r := handle ev s in (throws r, state_of r)
  end.

Definition perform_all (acts : list Action) (s : State) : State :=
  foldl (λ s a, (perform a s).2) s acts.

(** What every operation keeps. *)
Definition service_ok (t : WebSocketService) : Prop :=
  (∀ c, NoDup (handlers_of c t))
  ∧ 0 ≤ reconnectAttempts t ≤ maxReconnectAttempts t.

(** The one call that throws: a [sendMessage] on an OPEN socket with a
    message that [JSON.stringify] rejects. *)
Definition send_fails (a : Action) (s : State) : Prop :=
  ∃ m k e, a = DoSend m ∧ ws (this s) = Some k ∧ readyState k = OPEN
           ∧ JSON_stringify m = inl e.

Lemma perform_ok a s :
  service_ok (this s) →
  ((perform a s).1 = true ↔ send_fails a s)
  ∧ ((perform a s).1 = true → (perform a s).2 = s)
  ∧ service_ok (this (perform a s).2)
  ∧ maxReconnectAttempts (this (perform a s).2) = maxReconnectAttempts (this s)
  ∧ reconnectInterval (this (perform a s).2) = reconnectInterval (this s).
Proof.
  intros [Hnd Hle]. unfold service_ok, send_fails.
  destruct a as [c h|c h| | |m|ev]; cbn [perform].
  - rewrite register_returns_unregister. cbn.
    refine (conj _ (conj _ (conj (conj _ _) (conj _ _)))); try done;
      try (by destruct c).
    + split; [done|]. by intros (m & k & e & [=] & _).
    + intros c'. specialize (Hnd c'). destruct c, c'; cbn; try done;
        by apply Set_add_NoDup.
  - destruct (cleanup_frame_aux c h s) as (s1 & b & Hrun & Hsets & Hother & Ha & Hm & Hi).
    rewrite Hrun. cbn.
    refine (conj _ (conj _ (conj (conj _ _) (conj _ _)))); try done.
    + split; [done|]. by intros (m & k & e & [=] & _).
    + intros c'. destruct (decide (c' = c)) as [->|Hne].
      * rewrite Hsets. apply Set_delete_NoDup, Hnd.
      * rewrite Hother by done. apply Hnd.
    + by rewrite Ha, Hm.
  - destruct (connect_spec s) as (s1 & e1 & o & Hrun & Hthis & _).
    rewrite Hrun. cbn. rewrite Hthis.
    refine (conj _ (conj _ (conj (conj _ _) (conj _ _)))); try done;
      try (intros c'; specialize (Hnd c'); by destruct c').
    split; [done|]. by intros (m & k & e & [=] & _).
  - destruct (disconnect_forgets_socket_aux s) as (s1 & Hrun & Hthis & _).
    rewrite Hrun. cbn. rewrite Hthis.
    refine (conj _ (conj _ (conj (conj _ _) (conj _ _)))); try done;
      try (intros c'; specialize (Hnd c'); by destruct c').
    split; [done|]. by intros (m & k & e & [=] & _).
  - unfold sendMessage, mbind, M_bind, get_this.
    destruct (ws (this s)) as [k|] eqn:Hws;
      [destruct (decide (readyState k = OPEN)) as [Hopen|Hnot];
       [destruct (JSON_stringify m) as [e|d] eqn:Hjson|]|]; cbn;
      (refine (conj _ (conj _ (conj (conj _ _) (conj _ _)))); try done);
      try (intros c'; specialize (Hnd c'); by destruct c').
    + split; [intros _|done]. by exists m, k, e.
    + split; [done|]. intros (m' & k' & e & [= <-] & _ & _ & Hbad). congruence.
    + split; [done|]. intros (m' & k' & e & _ & [= <-] & Hopen & _). done.
    + split; [done|]. by intros (m' & k' & e & _ & [=] & _).
  - destruct (handle_spec ev s) as (s1 & e1 & Hrun & _ & Hsets & Hm & Hi & _ & Hcase).
    rewrite Hrun. cbn.
    refine (conj _ (conj _ (conj (conj _ _) (conj _ _)))); try done.
    + split; [done|]. by intros (m & k & e & [=] & _).
    + intros c'. rewrite Hsets. apply Hnd.
    + rewrite Hm. destruct ev; try (destruct Hcase as [-> _]; lia).
      destruct (decide _); destruct Hcase as [-> _]; lia.
Qed.

(** X8. Starting from duplicate-free sets and a counter between zero and the
    limit, every method of the service and every callback it installs keeps
    the three sets duplicate-free, the counter between zero and the limit and
    the two limits unchanged. The only call that throws to its caller is a
    [sendMessage] on an OPEN socket whose message [JSON.stringify] rejects,
    and that call leaves the state as it was. *)
Theorem service_stays_ok_only_send_throws acts : ∀ s,
  service_ok (this s) →
  service_ok (this (perform_all acts s))
  ∧ maxReconnectAttempts (this (perform_all acts s)) = maxReconnectAttempts (this s)
  ∧ reconnectInterval (this (perform_all acts s)) = reconnectInterval (this s)
  ∧ ∀ a, ((perform a (perform_all acts s)).1 = true ↔ send_fails a (perform_all acts s))
         ∧ ((perform a (perform_all acts s)).1 = true →
            (perform a (perform_all acts s)).2 = perform_all acts s).
Proof.
  induction acts as [|a acts IH]; intros s Hok.
  - cbn. split_and!; try done; intros a;
      destruct (perform_ok a s Hok) as (Hiff & Hsame & _); done.
  - cbn [perform_all foldl].
    destruct (perform_ok a s Hok) as (_ & _ & Hok1 & Hm & Hi).
    destruct (IH _ Hok1) as (Hok2 & Hm2 & Hi2 & Hno).
    unfold perform_all in *. rewrite Hm2, Hi2, Hm, Hi. done.
Qed.

(** *** Sending several messages *)

Definition send_all (ms : list Message) (s : State) : State :=
  foldl (λ s m, state_of (sendMessage m s)) s ms.

(** The frames of the messages that [JSON.stringify] accepts, in order. *)
Definition frames (ms : list Message) : list string :=
  omap (λ m, match JSON_stringify m with
             | inr data => Some (frame_of data)
             | inl _ => None
             end) ms.

(** X9. On an open socket, a sequence of [sendMessage] calls hands the socket
    the serializations of the messages that [JSON.stringify] accepts, one per
    such call and in call order, after the frames already sent; a call whose
    message is rejected throws and sends nothing. Nothing is logged and the
    world is untouched. *)
Theorem send_all_in_order ms : ∀ s k,
  ws (this s) = Some k →
  readyState k = OPEN →
  this (send_all ms s)
    = set_ws (Some {| url := url k; readyState := OPEN;
                      sent := sent k ++ frames ms |}) (this s)
  ∧ trace (send_all ms s) = trace s
  ∧ world (send_all ms s) = world s.
Proof.
  induction ms as [|m ms IH]; intros s k Hws Hopen.
  - cbn. rewrite app_nil_r. split_and!; try done.
    destruct s as [[] ? ?], k. cbn in *. by subst.
  - cbn [send_all foldl]. unfold frames. cbn [omap list_omap]. fold (frames ms).
    set (s1 := state_of (sendMessage m s)).
    destruct (JSON_stringify m) as [e|data] eqn:Hjson.
    + assert (s1 = s) as ->.
      { unfold s1, sendMessage, mbind, M_bind, get_this. rewrite Hws.
        rewrite decide_True by done. by rewrite Hjson. }
      by apply IH.
    + assert (s1 = {| this := set_ws (Some {| url := url k; readyState := OPEN;
                                               sent := sent k ++ [frame_of data] |})
                                (this s);
                      world := world s; trace := trace s |}) as Hs1.
      { unfold s1, sendMessage, mbind, M_bind, get_this. rewrite Hws.
        rewrite decide_True by done. rewrite Hjson. cbn. by rewrite Hopen. }
      destruct (IH s1 {| url := url k; readyState := OPEN;
                         sent := sent k ++ [frame_of data] |})
        as (Hthis & Htr & Hw); [by rewrite Hs1|done|].
      unfold send_all in *. rewrite Hthis, Htr, Hw, Hs1. cbn.
      by rewrite <- app_assoc.
Qed.

(** *** Events when nobody is registered *)

Lemma handle_world_no_handlers ev s :
  (∀ c, handlers_of c (this s) = []) →
  world (state_of (handle ev s)) = world s
  ∧ ∀ c, handlers_of c (this (state_of (handle ev s))) = [].
Proof.
  intros Hnone.
  pose proof (handle_world ev s) as Hw.
  destruct (handle_spec ev s) as (s1 & e1 & Hrun & _ & Hsets & _).
  rewrite Hrun in *. cbn [state_of] in *.
  split; [|intros c; by rewrite Hsets].
  rewrite Hw.
  pose proof (Hnone OnMessage) as Hm. pose proof (Hnone OnConnect) as Hc.
  pose proof (Hnone OnDisconnect) as Hd. cbn in Hm, Hc, Hd.
  destruct ev; rewrite ?Hm, ?Hc, ?Hd; try done. by destruct (JSON_parse _).
Qed.

(** X10. With the three sets empty, socket events and timers never touch the
    world of the handlers. *)
Theorem events_without_handlers_keep_world evs : ∀ s,
  (∀ c, handlers_of c (this s) = []) →
  world (run evs s) = world s.
Proof.
  induction evs as [|ev evs IH]; intros s Hnone; [done|].
  rewrite run_cons.
  destruct (handle_world_no_handlers ev s Hnone) as [Hw Hnone1].
  rewrite IH by done. exact Hw.
Qed.

Lemma Set_delete_add_new (h : Handler) (l : list Handler) :
  h ∉ l → Set_delete h (Set_add h l) = l.
Proof using Type.
  intros Hnotin. unfold Set_add, Set_delete. rewrite decide_False by done.
  rewrite filter_app, filter_cons, decide_False by (intros Hne; by apply Hne).
  rewrite filter_nil, app_nil_r.
  induction l as [|x l IH]; [done|].
  apply not_elem_of_cons in Hnotin as [Hne Hnotin].
  rewrite filter_cons, decide_True by done. by rewrite IH.
Qed.

End Service.

#[global] Arguments Normal {Data W A} a s.
#[global] Arguments Throw {Data W A} e s.

(** Geometric growth of a sequence of delays: a common ratio [p/q > 1]
    between each delay and the next. *)
Definition grows_exponentially (ds : list Z) : Prop :=
  ∃ p q : Z, 0 < q < p ∧
    ∀ (i : nat) (a b : Z), ds !! i = Some a → ds !! S i = Some b → q * b = p * a.

(** *** A concrete page

    Messages are strings, parsed as themselves unless empty; every handler
    appends its own reference to the world, and handler [1] then throws. *)

Definition page_call (h : Handler) (arg : option string) (w : list Handler)
    : list Handler * option Error :=
  (w ++ [h], if decide (h = 1%nat) then Some "boom" else None).

Definition page_parse (d : string) : Error + string :=
  if String.eqb d "" then inl "SyntaxError" else inr d.

(** What the page sends: a number, [undefined], or an object that refers
    to itself, which [JSON.stringify] rejects. *)
Inductive PageMessage := Num (n : Z) | Undefined | Cyclic.

Definition page_stringify (m : PageMessage) : Error + option string :=
  match m with
  | Num n => inr (Some (pretty n))
  | Undefined => inr None
  | Cyclic => inl "TypeError"
  end.

Definition page_socket (u : string) : Error + Socket :=
  inr {| url := u; readyState := CONNECTING; sent := [] |}.

Definition page_run : list Event → @State string (list Handler) → State :=
  run page_call page_parse "http:" "localhost" page_socket.

Definition page_start : @State string (list Handler) :=
  {| this := constructor; world := []; trace := [] |}.

Definition with_socket (r : ReadyState) : @State string (list Handler) :=
  {| this := set_ws (Some {| url := "ws://localhost:8081/ws"; readyState := r;
                             sent := [] |}) constructor;
     world := []; trace := [] |}.

(** [n] failed connection attempts in a row: the socket closes, the timer
    fires and [connect] runs again. *)
Definition failures (n : nat) : list Event :=
  concat (replicate n [EvClose; EvTimer]).

Example page_dispatch_past_throwing_handler :
  let s := {| this := set_messageHandlers [1; 2; 3]%nat constructor;
              world := []; trace := [] |} in
  ∃ s', onmessage page_call page_parse "hello" s = Normal () s'
    ∧ world s' = [1; 2; 3]%nat
    ∧ invocations (trace s') =
        [(OnMessage, 1, Some "hello"); (OnMessage, 2, Some "hello");
         (OnMessage, 3, Some "hello")]%nat.
Proof. eexists. split; [reflexivity|]. by split. Qed.

Example page_delays :
  timeouts (trace (page_run (failures 7) page_start)) = [1000; 2000; 3000; 4000; 5000].
Proof. reflexivity. Qed.

Lemma reconnect_backoff_linear_capped_witness :
  timeouts (trace (page_run (failures 7) page_start))
    = timeouts (trace page_start)
        ++ ((λ j, 1000 * j) <$> seqZ 1 (Z.min (closes (failures 7)) 5))
  ∧ timeouts (trace (page_run (failures 3) (page_run (failures 7) page_start)))
    = timeouts (trace (page_run (failures 7) page_start)).
Proof.
  assert (∀ n, EvOpen ∉ failures n) as Hfail.
  { intros n. unfold failures. induction n as [|n IH]; cbn.
    - apply not_elem_of_nil.
    - rewrite !not_elem_of_cons. by split_and!. }
  destruct (reconnect_backoff_linear_capped page_call page_parse "http:" "localhost"
              page_socket (failures 7) page_start eq_refl eq_refl eq_refl (Hfail 7%nat))
    as [Hdelays Hafter].
  split; [exact Hdelays|].
  apply Hafter; [by vm_compute|apply Hfail].
Defined.

(** The claim of exponential growth fails on the first five consecutive
    failures of a new service: 1000, 2000, 3000 has no common ratio. *)
Lemma reconnect_delays_not_exponential :
  ¬ grows_exponentially (timeouts (trace (page_run (failures 5) page_start))).
Proof.
  change (timeouts (trace (page_run (failures 5) page_start)))
    with [1000; 2000; 3000; 4000; 5000].
  intros (p & q & Hpq & Hratio).
  pose proof (Hratio 0%nat 1000 2000 eq_refl eq_refl).
  pose proof (Hratio 1%nat 2000 3000 eq_refl eq_refl).
  lia.
Qed.

Lemma unsubscribe_handle_fresh_round_trip_witness :
  ∃ cleanup s1 s2,
    register OnMessage 7%nat page_start = Normal cleanup s1
    ∧ cleanup s1 = Normal true s2
    ∧ 7%nat ∈ handlers_of OnMessage (this s1)
    ∧ (7%nat ∉ handlers_of OnMessage (this s2))
    ∧ s2 = page_start
    ∧ (∃ ext, trace (page_run [EvOpen; EvMessage "hello"; EvClose] s2) = trace s2 ++ ext
              ∧ ∀ a, Invoked OnMessage 7%nat a ∉ ext).
Proof.
  destruct (unsubscribe_handle_fresh_round_trip page_call page_parse "http:"
              "localhost" page_socket OnMessage 7%nat page_start)
    as (cleanup & s1 & s2 & Hreg & Hclean & Hin & Hout & Hback & Hnever).
  exists cleanup, s1, s2.
  split_and!; try done; first [apply Hnever | apply Hback, not_elem_of_nil].
Defined.

(** A connect handler that has already been called: after its cleanup the
    next open calls the other handler only. *)
Example page_cleanup_after_calls :
  let s := page_run [EvOpen]
             {| this := set_connectHandlers [7; 8]%nat constructor;
                world := []; trace := [] |} in
  invocations (trace s) = [(OnConnect, 7, None); (OnConnect, 8, None)]%nat
  ∧ invocations (trace (page_run [EvOpen] (state_of (unregister OnConnect 7%nat s))))
    = [(OnConnect, 7, None); (OnConnect, 8, None); (OnConnect, 8, None)]%nat.
Proof. by vm_compute. Qed.

(** Registering a function that is already registered and then cleaning up
    does not restore the set: the earlier registration is gone too. *)
Lemma unsubscribe_registered_twice_not_round_trip :
  let s := {| this := set_messageHandlers [7%nat] constructor;
              world := ([] : list Handler); trace := ([] : list (@Effect string)) |} in
  ∃ cleanup s1 b s2,
    addMessageHandler 7%nat s = Normal cleanup s1
    ∧ cleanup s1 = Normal b s2
    ∧ messageHandlers (this s) = [7%nat]
    ∧ messageHandlers (this s2) = []
    ∧ s2 ≠ s.
Proof.
  eexists _, _, _, _. split; [reflexivity|]. split; [reflexivity|].
  split_and!; try reflexivity. discriminate.
Qed.

Lemma sendMessage_outcomes_witness :
  (∃ s', sendMessage page_stringify (Num 5) (with_socket CLOSED) = Normal () s'
     ∧ this s' = this (with_socket CLOSED)
     ∧ world s' = world (with_socket CLOSED)
     ∧ trace s' = trace (with_socket CLOSED)
                    ++ [ConsoleError "WebSocket is not connected" None])
  ∧ (∃ s' k', sendMessage page_stringify (Num 5) (with_socket OPEN) = Normal () s'
       ∧ ws (this s') = Some k'
       ∧ sent k' = [] ++ ["5"]
       ∧ readyState k' = OPEN
       ∧ world s' = world (with_socket OPEN)
       ∧ trace s' = trace (with_socket OPEN))
  ∧ sendMessage page_stringify Cyclic (with_socket OPEN)
    = Throw "TypeError" (with_socket OPEN).
Proof.
  pose (k := {| url := "ws://localhost:8081/ws"; readyState := OPEN; sent := [] |}).
  split_and!.
  - apply (proj1 (sendMessage_outcomes page_stringify (Num 5) (with_socket CLOSED))).
    intros k' [= <-]. discriminate.
  - destruct (proj1 (proj2 (sendMessage_outcomes page_stringify (Num 5)
                              (with_socket OPEN)) k eq_refl eq_refl)
                (Some "5") eq_refl)
      as (s' & k' & Hrun & Hws & _ & Hsent & Hopen & Hw & Htr).
    exists s', k'. split_and!; try done. by apply Hsent.
  - apply (proj2 (proj2 (sendMessage_outcomes page_stringify Cyclic (with_socket OPEN))
                    k eq_refl eq_refl)).
    reflexivity.
Defined.

(** On an OPEN socket a message that cannot be serialized is not sent:
    [sendMessage] throws, and the socket has received nothing. *)
Lemma sendMessage_open_socket_can_throw :
  (∀ s', sendMessage page_stringify Cyclic (with_socket OPEN) ≠ Normal () s')
  ∧ ws (this (state_of (sendMessage page_stringify Cyclic (with_socket OPEN))))
    = Some {| url := "ws://localhost:8081/ws"; readyState := OPEN; sent := [] |}.
Proof. split; [intros s'; discriminate|reflexivity]. Qed.

(** *** The concrete page again: further instances *)

Definition page_connect_url : string := connect_url "http:" "localhost".

Definition page_refused (u : string) : Error + Socket := inl "SecurityError".

Definition page_perform_all :
    list (@Action PageMessage) → @State string (list Handler) → State :=
  perform_all page_call page_parse page_stringify "http:" "localhost" page_socket.

Lemma service_ok_constructor : service_ok constructor.
Proof.
  split; [|cbn; lia]. intros []; apply NoDup_nil_2.
Qed.

Lemma reconnect_delays_bounded_witness :
  let evs := [EvClose; EvOpen; EvClose; EvTimer; EvClose] in
  0 ≤ reconnectAttempts (this (page_run evs page_start)) ≤ 5
  ∧ ∃ ext, trace (page_run evs page_start) = trace page_start ++ ext
      ∧ Z.of_nat (length (timeouts ext)) ≤ closes evs
      ∧ ∀ d, d ∈ timeouts ext → ∃ j, 1 ≤ j ≤ 5 ∧ d = 1000 * j.
Proof.
  apply (reconnect_delays_bounded page_call page_parse "http:" "localhost" page_socket
           [EvClose; EvOpen; EvClose; EvTimer; EvClose] page_start).
  cbn. lia.
Defined.

Lemma open_restores_reconnect_budget_witness :
  let s1 := page_run (failures 5 ++ [EvOpen]) page_start in
  reconnectAttempts (this s1) = 0
  ∧ timeouts (trace (page_run [EvClose] s1)) = timeouts (trace s1) ++ [1000]
  ∧ reconnectAttempts (this (page_run [EvClose] s1)) = 1.
Proof.
  apply (open_restores_reconnect_budget page_call page_parse "http:" "localhost"
           page_socket (failures 5) page_start).
  cbn. lia.
Defined.

Lemma connect_outcome_witness :
  connect "http:" "localhost" page_socket page_start
    = Normal () {| this := set_ws (Some {| url := page_connect_url;
                                           readyState := CONNECTING; sent := [] |})
                             (this page_start);
                   world := world page_start;
                   trace := trace page_start ++ [NewWebSocket page_connect_url] |}
  ∧ connect "http:" "localhost" page_refused page_start
    = Normal () {| this := this page_start; world := world page_start;
                   trace := trace page_start ++
                     [ConsoleError "Error connecting to WebSocket:" (Some "SecurityError")] |}
  ∧ connect_url "https:" "example.org" = "wss://example.org:8081/ws"
  ∧ connect_url "http:" "localhost" = "ws://localhost:8081/ws".
Proof.
  split_and!.
  - apply (proj1 (connect_outcome "http:" "localhost" page_socket page_start)).
    reflexivity.
  - apply (proj1 (proj2 (connect_outcome "http:" "localhost" page_refused page_start))).
    reflexivity.
  - apply (proj1 (proj2 (proj2 (connect_outcome "https:" "example.org" page_socket
                                  page_start)))).
    reflexivity.
  - apply (proj2 (proj2 (proj2 (connect_outcome "http:" "localhost" page_socket
                                  page_start)))).
    discriminate.
Defined.

Lemma disconnect_then_close_reconnects_witness :
  let s' := page_run [EvClose; EvTimer] (state_of (disconnect (with_socket OPEN))) in
  ws (this s') = Some {| url := page_connect_url; readyState := CONNECTING; sent := [] |}
  ∧ timeouts (trace s') = timeouts (trace (with_socket OPEN)) ++ [1000 * (0 + 1)].
Proof.
  apply (disconnect_then_close_reconnects page_call page_parse "http:" "localhost"
           page_socket (with_socket OPEN)
           {| url := page_connect_url; readyState := CONNECTING; sent := [] |}).
  - cbn. lia.
  - reflexivity.
Defined.

Lemma register_twice_is_once_witness :
  ∃ cleanup s1,
    register OnConnect 4%nat page_start = Normal cleanup s1
    ∧ register OnConnect 4%nat s1 = Normal cleanup s1
    ∧ NoDup (handlers_of OnConnect (this s1))
    ∧ length (filter (λ h, h = 4%nat) (handlers_of OnConnect (this s1))) = 1%nat.
Proof.
  destruct (register_twice_is_once OnConnect 4%nat page_start)
    as (cleanup & s1 & Hfirst & Hsecond & Honce).
  exists cleanup, s1. split; [done|]. split; [done|].
  apply Honce. apply NoDup_nil_2.
Defined.

Lemma cleanup_frame_witness :
  let s := {| this := set_connectHandlers [9%nat]
                        (set_messageHandlers [1; 2; 3]%nat constructor);
              world := ([] : list Handler); trace := ([] : list (@Effect string)) |} in
  ∃ s1, unregister OnMessage 2%nat s = Normal true s1
    ∧ handlers_of OnMessage (this s1) = [1; 3]%nat
    ∧ handlers_of OnConnect (this s1) = [9%nat]
    ∧ unregister OnMessage 2%nat s1 = Normal false s1.
Proof.
  intros s.
  destruct (cleanup_frame OnMessage 2%nat s)
    as (s1 & Hrun & Hsets & Hother & _ & _ & _ & _ & Hagain).
  exists s1. split_and!; try done.
  apply (Hother OnConnect). discriminate.
Defined.

Lemma service_stays_ok_only_send_throws_witness :
  let acts := [DoRegister OnMessage 1%nat; DoRegister OnMessage 1%nat;
               DoEvent EvOpen; DoSend (Num 5); DoSend Cyclic;
               DoEvent (EvMessage "hello"); DoCleanup OnMessage 1%nat;
               DoEvent EvClose] in
  let s' := page_perform_all acts (with_socket OPEN) in
  service_ok (this s')
  ∧ maxReconnectAttempts (this s') = 5
  ∧ reconnectInterval (this s') = 1000
  ∧ (perform page_call page_parse page_stringify "http:" "localhost" page_socket
       (DoSend Cyclic) s').1 = true
  ∧ (perform page_call page_parse page_stringify "http:" "localhost" page_socket
       (DoSend Cyclic) s').2 = s'.
Proof.
  intros acts s'.
  destruct (service_stays_ok_only_send_throws page_call page_parse page_stringify "http:"
              "localhost" page_socket acts (with_socket OPEN))
    as (Hok & Hm & Hi & Hthrow).
  { split; [|cbn; lia]. intros []; apply NoDup_nil_2. }
  destruct (Hthrow (DoSend Cyclic)) as [Hiff Hsame].
  assert ((perform page_call page_parse page_stringify "http:" "localhost" page_socket
             (DoSend Cyclic) s').1 = true) as Hbad.
  { apply Hiff.
    exists Cyclic, {| url := "ws://localhost:8081/ws"; readyState := OPEN;
                      sent := ["5"] |}, "TypeError".
    by split_and!. }
  split_and!; try done; by apply Hsame.
Defined.

Lemma send_all_in_order_witness :
  this (send_all page_stringify [Num 1; Cyclic; Undefined; Num 2] (with_socket OPEN))
    = set_ws (Some {| url := "ws://localhost:8081/ws"; readyState := OPEN;
                      sent := [] ++ frames page_stringify [Num 1; Cyclic; Undefined; Num 2] |})
        (this (with_socket OPEN))
  ∧ trace (send_all page_stringify [Num 1; Cyclic; Undefined; Num 2] (with_socket OPEN))
    = trace (with_socket OPEN)
  ∧ world (send_all page_stringify [Num 1; Cyclic; Undefined; Num 2] (with_socket OPEN))
    = world (with_socket OPEN).
Proof.
  apply (send_all_in_order page_stringify [Num 1; Cyclic; Undefined; Num 2]
           (with_socket OPEN)
           {| url := "ws://localhost:8081/ws"; readyState := OPEN; sent := [] |});
    reflexivity.
Defined.

Example page_frames :
  frames page_stringify [Num 1; Cyclic; Undefined; Num 2] = ["1"; "undefined"; "2"].
Proof. reflexivity. Qed.

Lemma events_without_handlers_keep_world_witness :
  world (page_run [EvOpen; EvMessage "hello"; EvClose; EvTimer] page_start)
  = world page_start.
Proof.
  apply (events_without_handlers_keep_world page_call page_parse "http:" "localhost"
           page_socket [EvOpen; EvMessage "hello"; EvClose; EvTimer] page_start).
  by intros [].
Defined.

End WS.

(** ** [WebSocketService.getInstance]: the static field and the heap *)

Module Singleton.

Import WS.

(** References to objects made by [new WebSocketService()]. *)
Definition loc := nat.

(** The static field [WebSocketService.instance] ([undefined] until the
    first call) and the service objects allocated so far. *)
Record Program := {
  instance : option loc;
  heap : gmap loc WebSocketService }.

Definition initial : Program := {| instance := None; heap := ∅ |}.

(** [new WebSocketService()] *)
Definition new (g : Program) : loc * Program :=
  let l := fresh (dom (heap g)) in
  (l, {| instance := instance g; heap := <[l := constructor]> (heap g) |}).

Definition getInstance (g : Program) : loc * Program :=
  match instance g with
  | Some l => (l, g)
  | None =>
      let '(l, g') := new g in
      (l, {| instance := Some l; heap := heap g' |})
  end.

(** A method call on a reference updates the object it points to. *)
Definition method (l : loc) (f : WebSocketService → WebSocketService)
    (g : Program) : Program :=
  {| instance := instance g; heap := alter f l (heap g) |}.

(** What call sites can do: ask for the instance, call a method on some
    reference, or construct a service of their own. Only [getInstance]
    writes the static field. *)
Inductive Op :=
| CallGetInstance
| CallMethod (l : loc) (f : WebSocketService → WebSocketService)
| CallNew.

(** Runs the operations in order; returns the references handed out by the
    [getInstance] calls. *)
Fixpoint run_ops (ops : list Op) (g : Program) : list loc * Program :=
  match ops with
  | [] => ([], g)
  | CallGetInstance :: ops' =>
      let '(l, g1) := getInstance g in
      let '(ls, g2) := run_ops ops' g1 in
      (l :: ls, g2)
  | CallMethod l f :: ops' => run_ops ops' (method l f g)
  | CallNew :: ops' => run_ops ops' (new g).2
  end.

Lemma getInstance_set g : instance (getInstance g).2 = Some (getInstance g).1.
Proof. unfold getInstance. destruct (instance g) eqn:Hi; [exact Hi|reflexivity]. Qed.

Lemma getInstance_again g l : instance g = Some l → getInstance g = (l, g).
Proof. unfold getInstance. by intros ->. Qed.

Lemma run_ops_instance ops : ∀ g l,
  instance g = Some l →
  instance (run_ops ops g).2 = Some l ∧ ∀ l', l' ∈ (run_ops ops g).1 → l' = l.
Proof.
  induction ops as [|op ops IH]; intros g l Hg; cbn [run_ops].
  - split; [done|]. by intros l' ?%elem_of_nil.
  - destruct op as [|l0 f|].
    + rewrite (getInstance_again g l Hg).
      destruct (IH g l Hg) as [Hinst Hall].
      destruct (run_ops ops g) as [ls g2]. cbn in *. split; [done|].
      intros l' [->|Hin]%elem_of_cons; [done|by apply Hall].
    + by apply IH.
    + by apply IH.
Qed.

(** C9. The first call of [getInstance] constructs the service and stores it
    in the static field; every later call, whatever method calls and
    constructions happen in between, returns that same reference and
    allocates nothing, so a registration made through one call site's
    reference is seen through every other's. *)
Theorem getInstance_idempotent g :
  let '(l, g1) := getInstance g in
  getInstance g1 = (l, g1)
  ∧ (instance g = None →
     heap g !! l = None ∧ heap g1 = <[l := constructor]> (heap g))
  ∧ (∀ ops l', l' ∈ (run_ops ops g1).1 → l' = l)
  ∧ (∀ f, let '(l2, g3) := getInstance (method l f g1) in
          l2 = l ∧ heap g3 !! l2 = f <$> heap g1 !! l).
Proof.
  pose proof (getInstance_set g) as Hset.
  destruct (getInstance g) as [l g1] eqn:Hget. cbn in Hset. split_and!.
  - by apply getInstance_again.
  - intros Hnone. unfold getInstance in Hget. rewrite Hnone in Hget.
    cbn in Hget. injection Hget as <- <-. cbn. split; [|done].
    apply not_elem_of_dom, is_fresh.
  - intros ops l'. by apply (run_ops_instance ops g1 l).
  - intros f. rewrite (getInstance_again (method l f g1) l) by done.
    split; [done|]. cbn. by rewrite lookup_alter_eq.
Qed.

Lemma getInstance_idempotent_witness :
  let '(l, g1) := getInstance initial in
  getInstance g1 = (l, g1)
  ∧ heap initial !! l = None
  ∧ heap g1 = <[l := constructor]> (heap initial)
  ∧ (run_ops [CallGetInstance; CallNew; CallMethod l (set_reconnectAttempts 3);
              CallGetInstance] g1).1 = [l; l].
Proof.
  pose proof (getInstance_idempotent initial) as Hidem.
  destruct (getInstance initial) as [l g1].
  destruct Hidem as (Hagain & Hfirst & Hsame & _).
  destruct (Hfirst eq_refl) as [Hnew Hheap].
  split_and!; try done.
  set (ops := [CallGetInstance; CallNew; CallMethod l (set_reconnectAttempts 3);
               CallGetInstance]).
  assert (length (run_ops ops g1).1 = 2%nat) as Hlen.
  { unfold ops. cbn [run_ops]. rewrite Hagain.
    destruct (getInstance (method _ _ _)) as [l0 g0]. reflexivity. }
  pose proof (Hsame ops) as Hall.
  destruct (run_ops ops g1).1 as [|a [|b [|? ?]]]; try discriminate.
  f_equal; [|f_equal]; apply Hall; repeat constructor.
Defined.

(** *** The static field always points into the heap *)

Definition well_formed (g : Program) : Prop :=
  ∀ l, instance g = Some l → is_Some (heap g !! l).

Lemma new_fresh g : heap g !! (new g).1 = None.
Proof. cbn. apply not_elem_of_dom, is_fresh. Qed.

Lemma run_ops_well_formed ops : ∀ g, well_formed g → well_formed (run_ops ops g).2.
Proof.
  induction ops as [|op ops IH]; intros g Hwf; [done|].
  cbn [run_ops]. destruct op as [|l0 f|].
  - assert (well_formed (getInstance g).2) as Hwf1.
    { unfold getInstance. destruct (instance g) eqn:Hi; [done|].
      unfold new. cbn. intros l [= <-]. cbn. rewrite lookup_insert_eq. by eexists. }
    specialize (IH _ Hwf1).
    destruct (getInstance g) as [l g1]. cbn in IH. by destruct (run_ops ops g1).
  - apply IH. intros l Hl. cbn in *.
    destruct (Hwf l Hl) as [t Ht].
    destruct (decide (l0 = l)) as [->|Hne].
    + rewrite lookup_alter_eq, Ht. by eexists.
    + rewrite lookup_alter_ne by done. by eexists.
  - apply IH. intros l Hl. cbn in *.
    apply lookup_insert_is_Some'. right. by apply Hwf.
Qed.

(** X11. Starting from a program whose static field, if set, points to an
    allocated service, every sequence of operations keeps it so; hence a
    service made directly with [new] is never the shared instance, and method
    calls on it leave the shared instance as it is. *)
Theorem new_never_aliases_instance ops g :
  well_formed g →
  let g1 := (run_ops ops g).2 in
  well_formed g1
  ∧ ∀ l, instance g1 = Some l →
      (new g1).1 ≠ l
      ∧ ∀ f, heap (method (new g1).1 f (new g1).2) !! l = heap g1 !! l.
Proof.
  intros Hwf g1.
  assert (well_formed g1) as Hwf1 by by apply run_ops_well_formed.
  split; [done|]. intros l Hl.
  assert ((new g1).1 ≠ l) as Hne.
  { intros Heq. destruct (Hwf1 l Hl) as [t Ht].
    pose proof (new_fresh g1) as Hfresh. rewrite Heq in Hfresh. congruence. }
  split; [done|]. intros f. cbn.
  rewrite lookup_alter_ne by done. by rewrite lookup_insert_ne.
Qed.

Lemma new_never_aliases_instance_witness :
  let g1 := (run_ops [CallNew; CallGetInstance; CallNew] initial).2 in
  well_formed g1
  ∧ ∀ l, instance g1 = Some l →
      (new g1).1 ≠ l
      ∧ ∀ f, heap (method (new g1).1 f (new g1).2) !! l = heap g1 !! l.
Proof.
  apply (new_never_aliases_instance [CallNew; CallGetInstance; CallNew] initial).
  intros l Hl. discriminate Hl.
Defined.

End Singleton.

(** ** services/api.js and App.js: the job list *)

Module App.

Import JS.

Definition Error := string.

(** What [fetch] and [response.json()] produce for one request: the request
    fails, or a response arrives with its [ok] flag, its status and the
    result of decoding its body. *)
Inductive FetchResult (B : Type) :=
| NetworkFailure (e : Error)
| Response (ok : bool) (status : Z) (json : Error + B).
Arguments NetworkFailure {B} e.
Arguments Response {B} ok status json.

(** A line written with [console.error(label, error)]. *)
Definition LogLine : Type := string * Error.

(** [ApiService.request]: the decoded body, or the rethrown error; every
    failure is logged before it is rethrown. *)
Definition request {B} (r : FetchResult B) : (Error + B) * list LogLine :=
  let rethrow (error : Error) : (Error + B) * list LogLine :=
    (inl error, [("API request failed:", error)]) in
  match r with
  | NetworkFailure e => rethrow e
  | Response ok status json =>
      if negb ok then rethrow ("HTTP error! status: " +:+ pretty status)
      else match json with
           | inl e => rethrow e
           | inr body => (inr body, [])
           end
  end.

(** The three [useState] cells of the component. *)
Record AppState := {
  messages : list Obj;
  jobs : list Obj;
  isConnected : bool }.

(** [setJobs(update)] with a functional update: React applies [update] to
    the current list. *)
Definition setJobs (update : list Obj → list Obj) (st : AppState) : AppState :=
  {| messages := messages st;
     jobs := update (jobs st);
     isConnected := isConnected st |}.

(** [toggleJob]; the toggle endpoint answers with the updated job object. *)
Definition toggleJob (jobId : Value) (r : FetchResult Obj) (st : AppState)
    : AppState * list LogLine :=
  match request r with
  | (inr updatedJob, log) =>
      (setJobs (λ prev, map (λ job,
           if strict_equal (prop job "id") jobId
           then spread_with job "is_active" (prop updatedJob "is_active")
           else job) prev) st, log)
  | (inl error, log) => (st, log ++ [("Error toggling job:", error)])
  end.

Definition deleteJob {B} (jobId : Value) (r : FetchResult B) (st : AppState)
    : AppState * list LogLine :=
  match request r with
  | (inr _, log) =>
      (setJobs (λ prev, filter (λ job, negb (strict_equal (prop job "id") jobId)) prev) st,
       log)
  | (inl error, log) => (st, log ++ [("Error deleting job:", error)])
  end.

(** A small job list for examples. *)
Definition job (id : Z) (name : string) (active : bool) : Obj :=
  {[ "id" := VNum id; "name" := VStr name; "is_active" := VBool active ]}.

Definition three_jobs : AppState :=
  {| messages := [];
     jobs := [job 1 "news" true; job 2 "jobs" false; job 3 "prices" true];
     isConnected := true |}.

Lemma strict_equal_true v w : strict_equal v w = true ↔ v = w.
Proof. unfold strict_equal. apply bool_decide_eq_true. Qed.

Lemma strict_equal_false v w : strict_equal v w = false ↔ v ≠ w.
Proof. unfold strict_equal. apply bool_decide_eq_false. Qed.

Lemma filter_keep_others (jobId : Value) (l : list Obj) :
  filter (λ job, negb (strict_equal (prop job "id") jobId)) l
  = filter (λ job, prop job "id" ≠ jobId) l.
Proof.
  apply list_filter_iff. intros job. unfold strict_equal.
  rewrite negb_True, bool_decide_spec. done.
Qed.

(** C5. When the DELETE request succeeds the job list becomes the prior
    list without the jobs whose [id] is [jobId]: the others stay, unchanged
    and in their order, and nothing else in the state moves. When the request
    fails in any way the whole state is left as it was. *)
Theorem deleteJob_removes_or_keeps {B} (jobId : Value) (r : FetchResult B) st :
  (∀ body log, request r = (inr body, log) →
     let st' := (deleteJob jobId r st).1 in
     jobs st' = filter (λ job, prop job "id" ≠ jobId) (jobs st)
     ∧ (∀ job, job ∈ jobs st' ↔ job ∈ jobs st ∧ prop job "id" ≠ jobId)
     ∧ jobs st' `sublist_of` jobs st
     ∧ messages st' = messages st
     ∧ isConnected st' = isConnected st)
  ∧ (∀ error log, request r = (inl error, log) → (deleteJob jobId r st).1 = st).
Proof.
  unfold deleteJob. split.
  - intros body log ->. cbn. rewrite filter_keep_others. split_and!; try done.
    + intros job. rewrite list_elem_of_filter. tauto.
    + apply sublist_filter.
  - by intros error log ->.
Qed.

Lemma deleteJob_removes_or_keeps_witness :
  (let st' := (deleteJob (VNum 2) (Response true 200 (inr ())) three_jobs).1 in
   jobs st' = filter (λ job, prop job "id" ≠ VNum 2) (jobs three_jobs)
   ∧ (∀ job, job ∈ jobs st' ↔ job ∈ jobs three_jobs ∧ prop job "id" ≠ VNum 2)
   ∧ jobs st' `sublist_of` jobs three_jobs
   ∧ messages st' = messages three_jobs
   ∧ isConnected st' = isConnected three_jobs)
  ∧ (deleteJob (VNum 2) (@Response () false 404 (inl "")) three_jobs).1 = three_jobs.
Proof.
  split.
  - apply (proj1 (deleteJob_removes_or_keeps (VNum 2) (Response true 200 (inr ()))
                    three_jobs) () []). reflexivity.
  - apply (proj2 (deleteJob_removes_or_keeps (VNum 2) (@Response () false 404 (inl ""))
                    three_jobs) "HTTP error! status: 404"
             [("API request failed:", "HTTP error! status: 404")]).
    reflexivity.
Defined.

Example deleteJob_three_jobs :
  jobs (deleteJob (VNum 2) (Response true 200 (inr ())) three_jobs).1
  = [job 1 "news" true; job 3 "prices" true].
Proof. reflexivity. Qed.

(** C8. After a successful toggle the list has the same length; at every
    position a job whose [id] differs from [jobId] is the same object, and a
    job whose [id] is [jobId] keeps every property but [is_active], which
    reads as the [is_active] of the job the API returned. The messages and
    the connection flag are untouched. *)
Theorem toggleJob_frame (jobId : Value) (r : FetchResult Obj) st :
  ∀ updatedJob log, request r = (inr updatedJob, log) →
    let st' := (toggleJob jobId r st).1 in
    length (jobs st') = length (jobs st)
    ∧ messages st' = messages st
    ∧ isConnected st' = isConnected st
    ∧ ∀ (i : nat) (job : Obj), jobs st !! i = Some job →
        ∃ job', jobs st' !! i = Some job'
          ∧ (prop job "id" ≠ jobId → job' = job)
          ∧ (prop job "id" = jobId →
             prop job' "is_active" = prop updatedJob "is_active"
             ∧ ∀ k, k ≠ "is_active" → job' !! k = job !! k).
Proof.
  intros updatedJob log Hreq. unfold toggleJob. rewrite Hreq. cbn.
  split_and!; try done.
  - apply length_map.
  - intros i job Hi. eexists. split.
    + rewrite list_lookup_fmap, Hi. reflexivity.
    + split.
      * intros Hne. by rewrite (proj2 (strict_equal_false _ _) Hne).
      * intros Heq. rewrite (proj2 (strict_equal_true _ _) Heq).
        unfold spread_with, prop. split.
        -- by rewrite lookup_insert_eq.
        -- intros k Hk. by rewrite lookup_insert_ne.
Qed.

Lemma toggleJob_frame_witness :
  let st' := (toggleJob (VNum 2) (Response true 200 (inr (job 2 "jobs" true)))
                three_jobs).1 in
  length (jobs st') = length (jobs three_jobs)
  ∧ messages st' = messages three_jobs
  ∧ isConnected st' = isConnected three_jobs
  ∧ ∀ (i : nat) (j : Obj), jobs three_jobs !! i = Some j →
      ∃ j', jobs st' !! i = Some j'
        ∧ (prop j "id" ≠ VNum 2 → j' = j)
        ∧ (prop j "id" = VNum 2 →
           prop j' "is_active" = prop (job 2 "jobs" true) "is_active"
           ∧ ∀ k, k ≠ "is_active" → j' !! k = j !! k).
Proof.
  apply (toggleJob_frame (VNum 2) (Response true 200 (inr (job 2 "jobs" true)))
           three_jobs (job 2 "jobs" true) []).
  reflexivity.
Defined.

Example toggleJob_three_jobs :
  jobs (toggleJob (VNum 2) (Response true 200 (inr (job 2 "jobs" true))) three_jobs).1
  = [job 1 "news" true; job 2 "jobs" true; job 3 "prices" true].
Proof. vm_compute. reflexivity. Qed.

(** *** services/api.js: how the requests are built *)

(** The integers that a JavaScript number holds exactly and prints in
    decimal: those below [2^53] in absolute value. *)
Definition safe_integer (n : Z) : Prop := - 2 ^ 53 < n < 2 ^ 53.

#[global] Instance safe_integer_dec (n : Z) : Decision (safe_integer n).
Proof. unfold safe_integer. apply _. Defined.

(** Template-literal conversion of a value to a string. A safe integer is
    printed in decimal. The text of any other number (rounded above [2^53],
    in exponent form from [1e21]) and of an object or array behind a
    reference is the engine's: [ToString] stands for it. *)
Definition to_string (ToString : Value → string) (v : Value) : string :=
  match v with
  | VUndefined => "undefined"
  | VNull => "null"
  | VBool true => "true"
  | VBool false => "false"
  | VNum n => if decide (safe_integer n) then pretty n else ToString v
  | VStr s => s
  | VRef _ => ToString v
  end.

(** The keys of a [fetch] options object that the service reads or writes;
    [None] is an absent key. *)
Record Options := {
  method : option string;
  headers : option (gmap string string);
  body : option string }.

Definition no_options : Options := {| method := None; headers := None; body := None |}.

(** [{...base, ...over}]: a key present in [over] wins. *)
Definition spread (base over : Options) : Options :=
  {| method := match method over with Some m => Some m | None => method base end;
     headers := match headers over with Some h => Some h | None => headers base end;
     body := match body over with Some b => Some b | None => body base end |}.

Definition baseUrl : string := "/api".

(** The [url] and [config] that [request] hands to [fetch]. *)
Definition url (endpoint : string) : string := baseUrl +:+ endpoint.

Definition config (options : Options) : Options :=
  spread
    {| method := None;
       headers := Some (default ∅ (headers options)
                          ∪ {[ "Content-Type" := "application/json" ]});
       body := None |}
    options.

(** A default parameter value applies when the argument is [undefined]. *)
Definition or_default (v d : Value) : Value :=
  match v with VUndefined => d | _ => v end.

(** The endpoint and options each method of [ApiService] passes to
    [request]. *)
Module ApiService.

Section Methods.

Variable ToString : Value → string.

Definition getChatMessages (limit : Value) : string * Options :=
  ("/chat/messages?limit=" +:+ to_string ToString (or_default limit (VNum 50)),
   no_options).

Definition getJobs : string * Options := ("/jobs", no_options).

Definition getJobResults (jobId limit : Value) : string * Options :=
  ("/jobs/" +:+ to_string ToString jobId +:+ "/results?limit="
     +:+ to_string ToString (or_default limit (VNum 10)), no_options).

Definition toggleJob (jobId : Value) : string * Options :=
  ("/jobs/" +:+ to_string ToString jobId +:+ "/toggle",
   {| method := Some "POST"; headers := None; body := None |}).

Definition deleteJob (jobId : Value) : string * Options :=
  ("/jobs/" +:+ to_string ToString jobId,
   {| method := Some "DELETE"; headers := None; body := None |}).

Definition getStats : string * Options := ("/stats", no_options).

End Methods.

End ApiService.

(** What reaches [fetch] for a call [(endpoint, options)]. *)
Definition fetched (c : string * Options) : string * Options := (url c.1, config c.2).

(** *** App.js: the initial load *)

Definition setMessages (update : list Obj → list Obj) (st : AppState) : AppState :=
  {| messages := update (messages st);
     jobs := jobs st;
     isConnected := isConnected st |}.

(** When both requests fail: which one fails first, and whether the other
    fails in the same tick, so that its failure is logged before the handler
    of the first runs. *)
Record Timing := {
  jobs_first : bool;
  same_tick : bool }.

(** [loadInitialData]: both requests are started and [Promise.all] waits
    for them. It rejects with the error of the request that fails first, and
    the handler logs that error; the failure of the other request is logged
    by [request] before the handler's line when both fail in the same tick,
    and after it otherwise. *)
Definition loadInitialData (rm rj : FetchResult (list Obj)) (timing : Timing)
    (st : AppState) : AppState * list LogLine :=
  let '(m, logm) := request rm in
  let '(j, logj) := request rj in
  match m, j with
  | inr messagesData, inr jobsData =>
      (setJobs (λ _, jobsData) (setMessages (λ _, messagesData) st), logm ++ logj)
  | inl em, inr _ => (st, logm ++ [("Error loading initial data:", em)])
  | inr _, inl ej => (st, logj ++ [("Error loading initial data:", ej)])
  | inl em, inl ej =>
      let '(first_log, first_error, second_log) :=
        if jobs_first timing then (logj, ej, logm) else (logm, em, logj) in
      if same_tick timing
      then (st, first_log ++ second_log ++ [("Error loading initial data:", first_error)])
      else (st, first_log ++ [("Error loading initial data:", first_error)] ++ second_log)
  end.

(** Whether a fetch ends in a decoded body. *)
Definition succeeded {B} (r : FetchResult B) : bool :=
  match r with
  | Response true _ (inr _) => true
  | _ => false
  end.

(** *** Failures, absent ids, repeated calls *)

Lemma request_failed {B} (r : FetchResult B) :
  succeeded r = false → ∃ e, request r = (inl e, [("API request failed:", e)]).
Proof.
  destruct r as [e|[] status [e|b]]; cbn; intros Hs; try discriminate; by eexists.
Qed.

Lemma request_succeeded {B} (r : FetchResult B) :
  succeeded r = true → ∃ status b, r = Response true status (inr b) ∧ request r = (inr b, []).
Proof.
  destruct r as [e|[] status [e|b]]; cbn; intros Hs; try discriminate. by eexists _, _.
Qed.

Lemma setJobs_same (l : list Obj) st : l = jobs st → setJobs (λ _, l) st = st.
Proof. intros ->. by destruct st. Qed.

Lemma map_unmatched (jobId : Value) (f : Obj → Obj) (l : list Obj) :
  (∀ job, job ∈ l → prop job "id" ≠ jobId) →
  map (λ job, if strict_equal (prop job "id") jobId then f job else job) l = l.
Proof.
  induction l as [|x l IH]; intros Hall; [done|]. cbn.
  rewrite (proj2 (strict_equal_false _ _)) by (apply Hall; left).
  f_equal. apply IH. intros job Hin. apply Hall. by right.
Qed.

Lemma filter_unmatched (jobId : Value) (l : list Obj) :
  (∀ job, job ∈ l → prop job "id" ≠ jobId) →
  filter (λ job, negb (strict_equal (prop job "id") jobId)) l = l.
Proof.
  induction l as [|x l IH]; intros Hall; [done|].
  rewrite filter_cons, decide_True.
  - f_equal. apply IH. intros job Hin. apply Hall. by right.
  - rewrite (proj2 (strict_equal_false _ _)); [done|]. apply Hall. left.
Qed.

(** X12. Any failed request -- no response, a non-ok status even with a body that
    decodes, or an ok response whose body does not decode -- leaves the whole
    state as it was, for [toggleJob] and for [deleteJob]; the error is logged
    twice, by [request] and by the caller. *)
Theorem failed_request_changes_nothing (jobId : Value) (r : FetchResult Obj) st :
  succeeded r = false →
  ∃ e, toggleJob jobId r st
       = (st, [("API request failed:", e); ("Error toggling job:", e)])
     ∧ deleteJob jobId r st
       = (st, [("API request failed:", e); ("Error deleting job:", e)]).
Proof.
  intros Hs. destruct (request_failed r Hs) as [e He]. exists e.
  unfold toggleJob, deleteJob. by rewrite He.
Qed.

(** X13. A toggle or a delete for an id that no job in the list carries changes
    nothing, whatever the API answers. *)
Theorem absent_id_is_noop (jobId : Value) (r : FetchResult Obj) st :
  (∀ job, job ∈ jobs st → prop job "id" ≠ jobId) →
  (toggleJob jobId r st).1 = st ∧ (deleteJob jobId r st).1 = st.
Proof.
  intros Habsent. unfold toggleJob, deleteJob.
  destruct (request r) as [[e|b] log]; cbn; [done|].
  unfold setJobs. rewrite map_unmatched, filter_unmatched by done.
  by destruct st.
Qed.

Lemma deleteJob_jobs {B} (jobId : Value) (r : FetchResult B) st :
  succeeded r = true →
  (deleteJob jobId r st).1
  = setJobs (filter (λ job, prop job "id" ≠ jobId)) st.
Proof.
  intros Hs. destruct (request_succeeded r Hs) as (status & b & -> & Hreq).
  unfold deleteJob. rewrite Hreq. cbn. unfold setJobs.
  by rewrite filter_keep_others.
Qed.

(** X14. Successful deletes: deleting the same id again changes nothing, deletes
    of two ids can be done in either order, no job with the deleted id is
    left, and a later toggle of that id has no effect. *)
Theorem deleteJob_idempotent_commutes {B} (j1 j2 : Value) (r1 r2 : FetchResult B)
    (r' : FetchResult Obj) st :
  succeeded r1 = true →
  succeeded r2 = true →
  let d1 := (deleteJob j1 r1 st).1 in
  (deleteJob j1 r2 d1).1 = d1
  ∧ (deleteJob j2 r2 d1).1 = (deleteJob j1 r1 (deleteJob j2 r2 st).1).1
  ∧ (∀ job, job ∈ jobs d1 → prop job "id" ≠ j1)
  ∧ (toggleJob j1 r' d1).1 = d1.
Proof.
  intros H1 H2 d1.
  assert (∀ job, job ∈ jobs d1 → prop job "id" ≠ j1) as Hgone.
  { unfold d1. rewrite deleteJob_jobs by done. cbn. intros job.
    rewrite list_elem_of_filter. tauto. }
  split_and!; [| |done|].
  - unfold d1. rewrite !deleteJob_jobs by done. unfold setJobs. cbn. f_equal.
    rewrite list_filter_filter. apply list_filter_iff. tauto.
  - unfold d1. rewrite !deleteJob_jobs by done. unfold setJobs. cbn. f_equal.
    rewrite !list_filter_filter. apply list_filter_iff. tauto.
  - unfold toggleJob. destruct (request r') as [[e|b] log]; cbn; [done|].
    unfold setJobs. rewrite map_unmatched by done. by destruct d1.
Qed.

(** X15. When two toggles of the same job succeed one after the other, the list
    is what the second answer alone would have given: the last answer wins. *)
Theorem toggleJob_last_answer_wins (jobId : Value) (r1 r2 : FetchResult Obj) st :
  succeeded r1 = true →
  succeeded r2 = true →
  (toggleJob jobId r2 (toggleJob jobId r1 st).1).1 = (toggleJob jobId r2 st).1.
Proof.
  intros H1 H2.
  destruct (request_succeeded r1 H1) as (s1 & u1 & -> & Hreq1).
  destruct (request_succeeded r2 H2) as (s2 & u2 & -> & Hreq2).
  unfold toggleJob. rewrite Hreq1, Hreq2. cbn. unfold setJobs. cbn. f_equal.
  rewrite map_map. apply map_ext. intros job.
  destruct (strict_equal (prop job "id") jobId) eqn:Hid; [|by rewrite Hid].
  assert (prop (spread_with job "is_active" (prop u1 "is_active")) "id" = prop job "id")
    as Hsame.
  { unfold prop, spread_with. by rewrite lookup_insert_ne. }
  rewrite Hsame, Hid. unfold spread_with. apply insert_insert_eq.
Qed.

(** X16. The initial load is all or nothing. When both requests succeed, both
    lists are replaced by the answers, whatever they held, and nothing is
    logged; when either fails, neither list changes and the failure of the
    load is logged once. *)
Theorem loadInitialData_all_or_nothing (rm rj : FetchResult (list Obj))
    (timing : Timing) st :
  (succeeded rm = true → succeeded rj = true →
   ∃ sm sj messagesData jobsData,
     rm = Response true sm (inr messagesData)
     ∧ rj = Response true sj (inr jobsData)
     ∧ loadInitialData rm rj timing st
       = ({| messages := messagesData; jobs := jobsData;
             isConnected := isConnected st |}, []))
  ∧ (succeeded rm && succeeded rj = false →
     (loadInitialData rm rj timing st).1 = st
     ∧ length (filter (λ line : LogLine, line.1 = "Error loading initial data:")
                 (loadInitialData rm rj timing st).2) = 1%nat).
Proof.
  split.
  - intros Hm Hj.
    destruct (request_succeeded rm Hm) as (sm & ms & -> & Hreqm).
    destruct (request_succeeded rj Hj) as (sj & js & -> & Hreqj).
    exists sm, sj, ms, js. split_and!; try done.
  - intros Hfail. unfold loadInitialData.
    destruct (succeeded rm) eqn:Hm, (succeeded rj) eqn:Hj; try discriminate.
    + destruct (request_succeeded rm Hm) as (sm & ms & -> & ->).
      destruct (request_failed rj Hj) as [e ->]. cbn. split; [done|].
      repeat case_decide; done.
    + destruct (request_failed rm Hm) as [e ->].
      destruct (request_succeeded rj Hj) as (sj & js & -> & ->). cbn.
      split; [done|]. repeat case_decide; done.
    + destruct (request_failed rm Hm) as [em ->].
      destruct (request_failed rj Hj) as [ej ->].
      destruct timing as [[] []]; cbn; (split; [done|]); repeat case_decide; done.
Qed.

(** *** The requests that are sent *)

Lemma list_ascii_of_string_app (s t : string) :
  String.list_ascii_of_string (s +:+ t)
  = String.list_ascii_of_string s ++ String.list_ascii_of_string t.
Proof.
  induction s as [|a s IH]; [done|].
  change (String a s +:+ t) with (String a (s +:+ t)).
  cbn [String.list_ascii_of_string]. by rewrite IH.
Qed.

Lemma string_app_inv_tail (s1 s2 t : string) : s1 +:+ t = s2 +:+ t → s1 = s2.
Proof.
  intros Heq. apply (f_equal String.list_ascii_of_string) in Heq.
  rewrite !list_ascii_of_string_app in Heq. apply app_inv_tail in Heq.
  apply (f_equal String.string_of_list_ascii) in Heq.
  by rewrite !String.string_of_list_ascii_of_string in Heq.
Qed.

(** X17. Custom headers replace the default instead of extending it: when the
    caller passes its own [headers], those are what [fetch] gets, so the JSON
    content type is sent only if the caller's headers carry it; without
    custom headers exactly the JSON content type is sent. The method and the
    body are the caller's. *)
Theorem custom_headers_replace_default (options : Options) :
  (∀ h, headers options = Some h → headers (config options) = Some h)
  ∧ (headers options = None →
     headers (config options) = Some {[ "Content-Type" := "application/json" ]})
  ∧ method (config options) = method options
  ∧ body (config options) = body options.
Proof.
  unfold config, spread. cbn. split_and!.
  - by intros h ->.
  - intros ->. cbn. by rewrite (left_id_L ∅ (∪)).
  - by destruct (method options).
  - by destruct (body options).
Qed.

(** X18. Every request of the service goes under [/api/], carries the JSON
    content type and no body; toggling is a POST, deleting a DELETE, the
    reads name no method. *)
Theorem api_requests_shape (ToString : Value → string) (jobId limit : Value) :
  let reads := [ApiService.getChatMessages ToString limit; ApiService.getJobs;
                ApiService.getJobResults ToString jobId limit; ApiService.getStats] in
  let all := reads ++ [ApiService.toggleJob ToString jobId; ApiService.deleteJob ToString jobId] in
  (∀ c, c ∈ all →
     (∃ rest, (fetched c).1 = "/api/" +:+ rest)
     ∧ headers (fetched c).2 = Some {[ "Content-Type" := "application/json" ]}
     ∧ body (fetched c).2 = None)
  ∧ (∀ c, c ∈ reads → method (fetched c).2 = None)
  ∧ method (fetched (ApiService.toggleJob ToString jobId)).2 = Some "POST"
  ∧ method (fetched (ApiService.deleteJob ToString jobId)).2 = Some "DELETE".
Proof.
  cbn zeta. split_and!; try done.
  - intros c Hc. cbn in Hc. rewrite !elem_of_cons in Hc.
    destruct Hc as [->|[->|[->|[->|[->|[->|Hc]]]]]]; [..|by apply elem_of_nil in Hc];
      (split_and!; [eexists; reflexivity| |done]);
      cbn; by rewrite (left_id_L ∅ (∪)).
  - intros c Hc. rewrite !elem_of_cons in Hc.
    destruct Hc as [->|[->|[->|[->|Hc]]]]; [..|by apply elem_of_nil in Hc]; done.
Qed.

(** X19. Requests for different jobs never share a URL: for two different
    safe integer ids the toggle URLs differ, the delete URLs differ and the
    results URLs (same limit) differ. *)
Theorem job_urls_injective (ToString : Value → string) (a b : Z) (limit : Value) :
  safe_integer a →
  safe_integer b →
  a ≠ b →
  (fetched (ApiService.toggleJob ToString (VNum a))).1
    ≠ (fetched (ApiService.toggleJob ToString (VNum b))).1
  ∧ (fetched (ApiService.deleteJob ToString (VNum a))).1
    ≠ (fetched (ApiService.deleteJob ToString (VNum b))).1
  ∧ (fetched (ApiService.getJobResults ToString (VNum a) limit)).1
    ≠ (fetched (ApiService.getJobResults ToString (VNum b) limit)).1.
Proof.
  intros Ha Hb Hne.
  unfold fetched, url, baseUrl. cbn [fst snd ApiService.toggleJob ApiService.deleteJob
    ApiService.getJobResults to_string].
  rewrite !decide_True by done.
  split_and!; intros Heq; apply Hne.
  - apply (inj (String.append "/api")), (inj (String.append "/jobs/")) in Heq.
    apply string_app_inv_tail in Heq. by apply (inj pretty) in Heq.
  - apply (inj (String.append "/api")), (inj (String.append "/jobs/")) in Heq.
    by apply (inj pretty) in Heq.
  - apply (inj (String.append "/api")), (inj (String.append "/jobs/")) in Heq.
    apply string_app_inv_tail in Heq. by apply (inj pretty) in Heq.
Qed.

(** *** Instances on the three-job list *)

Lemma three_jobs_no_nine : ∀ j, j ∈ jobs three_jobs → prop j "id" ≠ VNum 9.
Proof.
  intros j Hj. cbn in Hj. rewrite !elem_of_cons in Hj.
  destruct Hj as [->|[->|[->|Hj]]]; [..|by apply elem_of_nil in Hj];
    by vm_compute.
Qed.

Lemma failed_request_changes_nothing_witness :
  ∃ e, toggleJob (VNum 2) (Response false 500 (inr (job 2 "jobs" true))) three_jobs
       = (three_jobs, [("API request failed:", e); ("Error toggling job:", e)])
     ∧ deleteJob (VNum 2) (Response false 500 (inr (job 2 "jobs" true))) three_jobs
       = (three_jobs, [("API request failed:", e); ("Error deleting job:", e)]).
Proof.
  apply (failed_request_changes_nothing (VNum 2)
           (Response false 500 (inr (job 2 "jobs" true))) three_jobs).
  reflexivity.
Defined.

Lemma absent_id_is_noop_witness :
  (toggleJob (VNum 9) (Response true 200 (inr (job 9 "ghost" true))) three_jobs).1
    = three_jobs
  ∧ (deleteJob (VNum 9) (Response true 200 (inr (job 9 "ghost" true))) three_jobs).1
    = three_jobs.
Proof.
  apply (absent_id_is_noop (VNum 9) (Response true 200 (inr (job 9 "ghost" true)))
           three_jobs).
  apply three_jobs_no_nine.
Defined.

Lemma deleteJob_idempotent_commutes_witness :
  let ok := Response true 200 (inr ()) in
  let d1 := (deleteJob (VNum 1) ok three_jobs).1 in
  (deleteJob (VNum 1) ok d1).1 = d1
  ∧ (deleteJob (VNum 3) ok d1).1
    = (deleteJob (VNum 1) ok (deleteJob (VNum 3) ok three_jobs).1).1
  ∧ (∀ j, j ∈ jobs d1 → prop j "id" ≠ VNum 1)
  ∧ (toggleJob (VNum 1) (Response true 200 (inr (job 1 "news" false))) d1).1 = d1.
Proof.
  apply (deleteJob_idempotent_commutes (VNum 1) (VNum 3) (Response true 200 (inr ()))
           (Response true 200 (inr ()))
           (Response true 200 (inr (job 1 "news" false))) three_jobs);
    reflexivity.
Defined.

Lemma toggleJob_last_answer_wins_witness :
  (toggleJob (VNum 2) (Response true 200 (inr (job 2 "jobs" false)))
     (toggleJob (VNum 2) (Response true 200 (inr (job 2 "jobs" true))) three_jobs).1).1
  = (toggleJob (VNum 2) (Response true 200 (inr (job 2 "jobs" false))) three_jobs).1.
Proof.
  apply (toggleJob_last_answer_wins (VNum 2)
           (Response true 200 (inr (job 2 "jobs" true)))
           (Response true 200 (inr (job 2 "jobs" false))) three_jobs);
    reflexivity.
Defined.

Lemma loadInitialData_all_or_nothing_witness :
  (∃ sm sj messagesData jobsData,
     Response true 200 (inr []) = Response true sm (inr messagesData)
     ∧ Response true 200 (inr [job 7 "fresh" true]) = Response true sj (inr jobsData)
     ∧ loadInitialData (Response true 200 (inr []))
         (Response true 200 (inr [job 7 "fresh" true])) {| jobs_first := false; same_tick := true |} three_jobs
       = ({| messages := messagesData; jobs := jobsData;
             isConnected := isConnected three_jobs |}, []))
  ∧ (loadInitialData (Response true 200 (inr [])) (NetworkFailure "offline")
       {| jobs_first := false; same_tick := true |} three_jobs).1 = three_jobs
  ∧ length (filter (λ line : LogLine, line.1 = "Error loading initial data:")
              (loadInitialData (Response true 200 (inr [])) (NetworkFailure "offline")
                 {| jobs_first := false; same_tick := true |} three_jobs).2) = 1%nat.
Proof.
  split.
  - apply (proj1 (loadInitialData_all_or_nothing (Response true 200 (inr []))
                    (Response true 200 (inr [job 7 "fresh" true])) {| jobs_first := false; same_tick := true |} three_jobs));
      reflexivity.
  - apply (proj2 (loadInitialData_all_or_nothing (Response true 200 (inr []))
                    (NetworkFailure "offline") {| jobs_first := false; same_tick := true |} three_jobs)).
    reflexivity.
Defined.

Definition bearer_only : Options :=
  {| method := Some "POST";
     headers := Some {[ "Authorization" := "Bearer t" ]};
     body := Some "{}" |}.

Lemma custom_headers_replace_default_witness :
  headers (config bearer_only) = Some {[ "Authorization" := "Bearer t" ]}
  ∧ headers (config no_options) = Some {[ "Content-Type" := "application/json" ]}
  ∧ method (config bearer_only) = Some "POST"
  ∧ body (config bearer_only) = Some "{}".
Proof.
  destruct (custom_headers_replace_default bearer_only) as (Hcustom & _ & Hm & Hb).
  destruct (custom_headers_replace_default no_options) as (_ & Hdefault & _ & _).
  split_and!; [by apply Hcustom|by apply Hdefault|exact Hm|exact Hb].
Defined.

(** A stand-in for the engine's conversion of the values the model leaves
    to it. *)
Definition engine (v : Value) : string :=
  match v with VRef _ => "[object Object]" | _ => "1e+21" end.

Lemma api_requests_shape_witness :
  ((∃ rest, (fetched (ApiService.getJobResults engine (VNum 4) VUndefined)).1 = "/api/" +:+ rest)
   ∧ headers (fetched (ApiService.getJobResults engine (VNum 4) VUndefined)).2
     = Some {[ "Content-Type" := "application/json" ]}
   ∧ body (fetched (ApiService.getJobResults engine (VNum 4) VUndefined)).2 = None)
  ∧ method (fetched (ApiService.getJobResults engine (VNum 4) VUndefined)).2 = None
  ∧ method (fetched (ApiService.toggleJob engine (VNum 4))).2 = Some "POST"
  ∧ method (fetched (ApiService.deleteJob engine (VNum 4))).2 = Some "DELETE".
Proof.
  destruct (api_requests_shape engine (VNum 4) VUndefined) as (Hall & Hreads & Hpost & Hdel).
  split; [|split; [|split]]; [|apply Hreads|exact Hpost|exact Hdel].
  - apply Hall. apply elem_of_app. left. do 2 right. left.
  - do 2 right. left.
Defined.

Example api_urls :
  (fetched (ApiService.getChatMessages engine VUndefined)).1 = "/api/chat/messages?limit=50"
  ∧ (fetched (ApiService.getJobResults engine (VNum 4) VUndefined)).1
    = "/api/jobs/4/results?limit=10"
  ∧ (fetched (ApiService.toggleJob engine (VNum 4))).1 = "/api/jobs/4/toggle"
  ∧ (fetched (ApiService.deleteJob engine (VNum 4))).1 = "/api/jobs/4".
Proof. by vm_compute. Qed.

Lemma job_urls_injective_witness :
  (fetched (ApiService.toggleJob engine (VNum 7))).1
    ≠ (fetched (ApiService.toggleJob engine (VNum 8))).1
  ∧ (fetched (ApiService.deleteJob engine (VNum 7))).1
    ≠ (fetched (ApiService.deleteJob engine (VNum 8))).1
  ∧ (fetched (ApiService.getJobResults engine (VNum 7) VUndefined)).1
    ≠ (fetched (ApiService.getJobResults engine (VNum 8) VUndefined)).1.
Proof.
  apply (job_urls_injective engine 7 8 VUndefined); unfold safe_integer; lia.
Defined.

End App.

(** ** App.js: the component on the socket service

    The effect of [useEffect] registers three functions on the shared
    service, connects, and returns the cleanup that unregisters them. The
    handlers act on the component: its three state cells and the console. *)

Module Wiring.

Import JS.

(** What the message handler can tell apart in the parsed data. A message of
    type ['chat_message'] carries its message object and one of type
    ['job_created'] its job object; [Other] is any value whose [type] is none
    of the three names, and [JsonNull] is [null], whose [type] cannot be
    read. *)
Inductive Parsed :=
| ChatMessage (message : Obj)
| JobCreated (job : Obj)
| MonitoringUpdate (result : Value)
| Other
| JsonNull.

Record Component := {
  state : App.AppState;
  console : list (string * Value) }.

Definition update (f : App.AppState → App.AppState) (c : Component) : Component :=
  {| state := f (state c); console := console c |}.

Definition setIsConnected (b : bool) (st : App.AppState) : App.AppState :=
  {| App.messages := App.messages st; App.jobs := App.jobs st; App.isConnected := b |}.

(** The function passed to [addMessageHandler]. *)
Definition onData (data : Parsed) (c : Component) : Component * option WS.Error :=
  match data with
  | ChatMessage message =>
      (update (App.setMessages (λ prev, prev ++ [message])) c, None)
  | JobCreated job => (update (App.setJobs (λ prev, prev ++ [job])) c, None)
  | MonitoringUpdate result =>
      ({| state := state c; console := console c ++ [("Monitoring update:", result)] |},
       None)
  | Other => (c, None)
  | JsonNull => (c, Some "TypeError")
  end.

(** The three functions created by one run of the effect have the
    references [n], [n + 1] and [n + 2]; a function of somebody else does
    not touch this component. *)
Definition component_call (n : WS.Handler) (h : WS.Handler) (arg : option Parsed)
    (c : Component) : Component * option WS.Error :=
  if decide (h = n) then
    match arg with
    | Some data => onData data c
    | None => (c, Some "TypeError")
    end
  else if decide (h = S n) then (update (setIsConnected true) c, None)
  else if decide (h = S (S n)) then (update (setIsConnected false) c, None)
  else (c, None).

Abbreviation St := (@WS.State Parsed Component).

Section Component.

Variable JSON_parse : string → WS.Error + Parsed.
Variable JSON_stringify : Obj → WS.Error + option string.
Variable location_protocol : string.
Variable location_hostname : string.
Variable WebSocket_new : string → WS.Error + WS.Socket.
Variable n : WS.Handler.

#[local] Existing Instance WS.M_ret.
#[local] Existing Instance WS.M_bind.

(** The body of the effect on the shared service: the three registrations
    and [wsService.connect()]; its result is the cleanup function. The
    [loadInitialData()] it also starts acts on the component alone and is
    [App.loadInitialData]. *)
Definition mount : @WS.M Parsed Component (@WS.M Parsed Component unit) :=
  cleanupMessage ← WS.addMessageHandler n;
  cleanupConnect ← WS.addConnectHandler (S n);
  cleanupDisconnect ← WS.addDisconnectHandler (S (S n));
  WS.connect location_protocol location_hostname WebSocket_new ;;
  mret (cleanupMessage ;; cleanupConnect ;; cleanupDisconnect ;; mret ()).

(** [sendMessage] of the component. *)
Definition sendMessage (content : Value) : @WS.M Parsed Component unit :=
  λ s, if App.isConnected (state (WS.world s))
       then WS.sendMessage JSON_stringify
              ({[ "type" := VStr "user_message"; "content" := content ]} : Obj) s
       else WS.Normal () s.

Definition run : list WS.Event → St → St :=
  WS.run (component_call n) JSON_parse location_protocol location_hostname WebSocket_new.

(** The function [n] alone is registered on each channel, as after the
    effect has run on a new service. *)
Definition mounted (s : St) : Prop :=
  WS.messageHandlers (WS.this s) = [n]
  ∧ WS.connectHandlers (WS.this s) = [S n]
  ∧ WS.disconnectHandlers (WS.this s) = [S (S n)].

(** Readings of a run of events: the chat messages and the created jobs
    among the frames that parse, and the connection flag after the last
    open or close. *)
Definition chats (evs : list WS.Event) : list Obj :=
  omap (λ ev, match ev with
              | WS.EvMessage d =>
                  match JSON_parse d with inr (ChatMessage m) => Some m | _ => None end
              | _ => None
              end) evs.

Definition created (evs : list WS.Event) : list Obj :=
  omap (λ ev, match ev with
              | WS.EvMessage d =>
                  match JSON_parse d with inr (JobCreated j) => Some j | _ => None end
              | _ => None
              end) evs.

Definition connected_after (b : bool) (evs : list WS.Event) : bool :=
  foldl (λ b ev, match ev with WS.EvOpen => true | WS.EvClose => false | _ => b end) b evs.

(** *** The component follows the socket *)

Lemma mounted_step ev s :
  mounted s →
  mounted (WS.state_of (WS.handle (component_call n) JSON_parse location_protocol
                          location_hostname WebSocket_new ev s)).
Proof.
  intros (Hm & Hc & Hd).
  destruct (WS.handle_spec (component_call n) JSON_parse location_protocol
              location_hostname WebSocket_new ev s)
    as (s1 & e1 & Hrun & _ & Hsets & _).
  rewrite Hrun. cbn [WS.state_of].
  pose proof (Hsets WS.OnMessage) as H1. pose proof (Hsets WS.OnConnect) as H2.
  pose proof (Hsets WS.OnDisconnect) as H3. cbn in H1, H2, H3.
  unfold mounted. by rewrite H1, H2, H3.
Qed.

(** The component after one event. *)
Lemma mounted_world ev s :
  mounted s →
  WS.world (WS.state_of (WS.handle (component_call n) JSON_parse location_protocol
                           location_hostname WebSocket_new ev s))
  = match ev with
    | WS.EvOpen => update (setIsConnected true) (WS.world s)
    | WS.EvClose => update (setIsConnected false) (WS.world s)
    | WS.EvMessage d =>
        match JSON_parse d with
        | inr data => (onData data (WS.world s)).1
        | inl _ => WS.world s
        end
    | _ => WS.world s
    end.
Proof.
  intros (Hm & Hc & Hd). rewrite WS.handle_world.
  destruct ev as [|d| |e|]; rewrite ?Hm, ?Hc, ?Hd; try done.
  - cbn. unfold component_call.
    rewrite (decide_False (P := S n = n)) by lia. by rewrite decide_True.
  - destruct (JSON_parse d) as [e|data]; [done|]. cbn. unfold component_call.
    by rewrite decide_True.
  - cbn. unfold component_call.
    rewrite (decide_False (P := S (S n) = n)) by lia.
    rewrite (decide_False (P := S (S n) = S n)) by lia. by rewrite decide_True.
Qed.

(** X20. While the component is mounted, its state is a function of the events:
    the chat messages and the created jobs are appended in arrival order,
    frames that do not parse or carry anything else change nothing, and the
    connection flag is that of the last open or close. *)
Theorem component_follows_events evs : ∀ s,
  mounted s →
  state (WS.world (run evs s))
  = {| App.messages := App.messages (state (WS.world s)) ++ chats evs;
       App.jobs := App.jobs (state (WS.world s)) ++ created evs;
       App.isConnected := connected_after (App.isConnected (state (WS.world s))) evs |}.
Proof.
  induction evs as [|ev evs IH]; intros s Hmt.
  - cbn. rewrite !app_nil_r. by destruct (state (WS.world s)).
  - unfold run. rewrite WS.run_cons. fold run.
    rewrite (IH _ (mounted_step ev s Hmt)), (mounted_world ev s Hmt).
    destruct ev as [|d| |e|]; cbn; try done.
    destruct (JSON_parse d) as [e|[m|j|r| |]]; cbn; try done.
    + by rewrite <- app_assoc.
    + by rewrite <- app_assoc.
Qed.

(** *** Sending from the component *)

(** X21. The component sends only while its flag says connected. With the flag
    off nothing happens at all, not even a log line. With the flag on and an
    open socket: when [JSON.stringify] accepts [{type: 'user_message',
    content}] the frame is its answer, and when it rejects the object (a
    content that cannot be serialized) the exception leaves [sendMessage]
    and nothing is sent. With the flag on but no open socket the service logs
    and sends nothing. *)
Theorem component_sendMessage (content : Value) (s : St) :
  let message : Obj := {[ "type" := VStr "user_message"; "content" := content ]} in
  (App.isConnected (state (WS.world s)) = false →
   sendMessage content s = WS.Normal () s)
  ∧ (App.isConnected (state (WS.world s)) = true →
     ∀ k, WS.ws (WS.this s) = Some k → WS.readyState k = WS.OPEN →
       (∀ data, JSON_stringify message = inr data →
          sendMessage content s
          = WS.Normal ()
              {| WS.this :=
                   WS.set_ws
                     (Some {| WS.url := WS.url k; WS.readyState := WS.OPEN;
                              WS.sent := WS.sent k ++ [WS.frame_of data] |})
                     (WS.this s);
                 WS.world := WS.world s; WS.trace := WS.trace s |})
       ∧ (∀ e, JSON_stringify message = inl e →
            sendMessage content s = WS.Throw e s))
  ∧ (App.isConnected (state (WS.world s)) = true →
     (∀ k, WS.ws (WS.this s) = Some k → WS.readyState k ≠ WS.OPEN) →
     sendMessage content s
     = WS.Normal ()
         {| WS.this := WS.this s; WS.world := WS.world s;
            WS.trace := WS.trace s ++
              [WS.ConsoleError "WebSocket is not connected" None] |}).
Proof.
  intros message. unfold sendMessage. fold message. split_and!.
  - by intros ->.
  - intros -> k Hws Hopen. unfold WS.sendMessage, mbind, WS.M_bind, WS.get_this.
    rewrite Hws, decide_True by done. split.
    + intros data ->. cbn. by rewrite Hopen.
    + by intros e ->.
  - intros -> Hnot. unfold WS.sendMessage, mbind, WS.M_bind, WS.get_this.
    destruct (WS.ws (WS.this s)) as [k|] eqn:Hws; [|done].
    by rewrite decide_False by by apply Hnot.
Qed.

(** X22. After [disconnect()] the flag still says connected until the close
    event arrives: in between, a message typed by the user is not sent and
    only logged by the service. *)
Theorem flag_outlives_disconnect (content : Value) (s : St) :
  mounted s →
  let s1 := WS.state_of (WS.disconnect (run [WS.EvOpen] s)) in
  App.isConnected (state (WS.world s1)) = true
  ∧ sendMessage content s1
    = WS.Normal ()
        {| WS.this := WS.this s1; WS.world := WS.world s1;
           WS.trace := WS.trace s1 ++
             [WS.ConsoleError "WebSocket is not connected" None] |}
  ∧ App.isConnected (state (WS.world (run [WS.EvClose] s1))) = false.
Proof.
  intros Hmt s1. subst s1. unfold run. cbn [WS.run foldl].
  pose proof (mounted_world WS.EvOpen s Hmt) as Hopen.
  pose proof (mounted_step WS.EvOpen s Hmt) as Hmt0.
  set (s0 := WS.state_of (WS.handle (component_call n) JSON_parse location_protocol
                            location_hostname WebSocket_new WS.EvOpen s)) in *.
  destruct (WS.disconnect_forgets_socket_aux s0) as (s1 & Hrun & Hthis & _).
  assert (WS.world s1 = WS.world s0) as Hworld.
  { unfold WS.disconnect, mbind, WS.M_bind, WS.get_this in Hrun.
    destruct (WS.ws _); cbn in Hrun; by injection Hrun as <-. }
  assert (mounted s1) as Hmt1.
  { destruct Hmt0 as (Hm & Hc & Hd). unfold mounted. by rewrite Hthis. }
  rewrite Hrun. cbn [WS.state_of].
  assert (App.isConnected (state (WS.world s1)) = true) as Hflag.
  { by rewrite Hworld, Hopen. }
  split_and!.
  - exact Hflag.
  - assert (WS.ws (WS.this s1) = None) as Hnone by (by rewrite Hthis).
    unfold sendMessage. rewrite Hflag.
    unfold WS.sendMessage, mbind, WS.M_bind, WS.get_this. by rewrite Hnone.
  - by rewrite (mounted_world WS.EvClose s1 Hmt1).
Qed.

(** *** Unmounting *)

(** X23. Running the effect and then its cleanup, with three functions that were
    not registered before, leaves the three sets as they were. The cleanup
    does not disconnect: the socket opened by the effect stays. On a service
    nobody else listens to, no later socket event reaches the component. *)
Theorem unmount_restores_registrations (s : St) :
  n ∉ WS.messageHandlers (WS.this s) →
  S n ∉ WS.connectHandlers (WS.this s) →
  S (S n) ∉ WS.disconnectHandlers (WS.this s) →
  ∃ cleanup s1 s2,
    mount s = WS.Normal cleanup s1
    ∧ cleanup s1 = WS.Normal () s2
    ∧ (∀ c, WS.handlers_of c (WS.this s2) = WS.handlers_of c (WS.this s))
    ∧ WS.ws (WS.this s2) = WS.ws (WS.this s1)
    ∧ WS.world s2 = WS.world s
    ∧ ((∀ c, WS.handlers_of c (WS.this s) = []) →
       ∀ evs, WS.world (run evs s2) = WS.world s2).
Proof.
  intros Hm Hc Hd.
  assert (∃ cleanup s1 s2,
    mount s = WS.Normal cleanup s1
    ∧ cleanup s1 = WS.Normal () s2
    ∧ (∀ c, WS.handlers_of c (WS.this s2) = WS.handlers_of c (WS.this s))
    ∧ WS.ws (WS.this s2) = WS.ws (WS.this s1)
    ∧ WS.world s2 = WS.world s) as (cleanup & s1 & s2 & H1 & H2 & Hsets & Hws & Hw).
  { unfold mount, mbind, WS.M_bind, WS.addMessageHandler, WS.addConnectHandler,
      WS.addDisconnectHandler, WS.modify_this, WS.get_this, mret, WS.M_ret,
      WS.connect, WS.try_catch, WS.throw, WS.emit, WS.console_error.
    cbn. destruct (WebSocket_new _) as [e|k]; cbn;
      (eexists _, _, _; split; [reflexivity|]; cbn; split; [reflexivity|]; cbn;
       split_and!; try reflexivity;
       intros []; cbn; by rewrite ?WS.Set_delete_add_new). }
  exists cleanup, s1, s2. split_and!; try done.
  intros Hnone evs. revert Hsets. generalize s2. clear - Hnone.
  induction evs as [|ev evs IH]; intros s2 Hsets; [done|].
  unfold run. rewrite WS.run_cons. fold run.
  destruct (WS.handle_world_no_handlers (component_call n) JSON_parse location_protocol
              location_hostname WebSocket_new ev s2) as [Hw Hnone1].
  { intros c. by rewrite Hsets. }
  rewrite IH; [done|]. intros c. by rewrite Hnone1, Hnone.
Qed.

End Component.

(** *** A sample session *)

Definition sample_parse (d : string) : WS.Error + Parsed :=
  if String.eqb d "chat" then inr (ChatMessage {[ "content" := VStr "hello" ]})
  else if String.eqb d "job" then inr (JobCreated (App.job 4 "new" true))
  else if String.eqb d "null" then inr JsonNull
  else inl "SyntaxError".

(** A stand-in serializer: an object whose content is a reference is taken
    to be circular and rejected. *)
Definition sample_stringify (o : Obj) : WS.Error + option string :=
  match prop o "content" with
  | VRef _ => inl "TypeError"
  | content =>
      inr (Some (App.to_string App.engine (prop o "type") +:+ ":"
                 +:+ App.to_string App.engine content))
  end.

Definition sample_socket (u : string) : WS.Error + WS.Socket :=
  inr {| WS.url := u; WS.readyState := WS.CONNECTING; WS.sent := [] |}.

Definition empty_component : Component :=
  {| state := {| App.messages := []; App.jobs := []; App.isConnected := false |};
     console := [] |}.

Definition new_service : St :=
  {| WS.this := WS.constructor; WS.world := empty_component; WS.trace := [] |}.

Definition mounted_service (ws : option WS.Socket) (connected : bool) : St :=
  {| WS.this :=
       WS.set_ws ws
         (WS.set_disconnectHandlers [7%nat]
            (WS.set_connectHandlers [6%nat]
               (WS.set_messageHandlers [5%nat] WS.constructor)));
     WS.world := update (setIsConnected connected) empty_component;
     WS.trace := [] |}.

Definition sample_run : list WS.Event → St → St :=
  run sample_parse "http:" "localhost" sample_socket 5%nat.

Lemma mounted_service_mounted ws b : mounted 5%nat (mounted_service ws b).
Proof. by split_and!. Qed.

Lemma component_follows_events_witness :
  let evs := [WS.EvOpen; WS.EvMessage "chat"; WS.EvMessage "garbage";
              WS.EvMessage "job"; WS.EvMessage "null"; WS.EvClose] in
  state (WS.world (sample_run evs (mounted_service None false)))
  = {| App.messages := [] ++ chats sample_parse evs;
       App.jobs := [] ++ created sample_parse evs;
       App.isConnected := connected_after false evs |}.
Proof.
  intros evs.
  apply (component_follows_events sample_parse "http:" "localhost" sample_socket
           5%nat evs (mounted_service None false)).
  apply mounted_service_mounted.
Defined.

Example sample_session :
  state (WS.world (sample_run [WS.EvOpen; WS.EvMessage "chat"; WS.EvMessage "garbage";
                               WS.EvMessage "job"; WS.EvMessage "null"; WS.EvClose]
                     (mounted_service None false)))
  = {| App.messages := [{[ "content" := VStr "hello" ]}];
       App.jobs := [App.job 4 "new" true];
       App.isConnected := false |}.
Proof. by vm_compute. Qed.

Definition open_socket : WS.Socket :=
  {| WS.url := "ws://localhost:8081/ws"; WS.readyState := WS.OPEN; WS.sent := [] |}.

Lemma component_sendMessage_witness :
  sendMessage sample_stringify (VStr "hi") (mounted_service (Some open_socket) false)
    = WS.Normal () (mounted_service (Some open_socket) false)
  ∧ sendMessage sample_stringify (VStr "hi") (mounted_service (Some open_socket) true)
    = WS.Normal ()
        {| WS.this :=
             WS.set_ws
               (Some {| WS.url := "ws://localhost:8081/ws"; WS.readyState := WS.OPEN;
                        WS.sent := [] ++ [WS.frame_of (Some "user_message:hi")] |})
               (WS.this (mounted_service (Some open_socket) true));
           WS.world := WS.world (mounted_service (Some open_socket) true);
           WS.trace := WS.trace (mounted_service (Some open_socket) true) |}
  ∧ sendMessage sample_stringify (VRef 0) (mounted_service (Some open_socket) true)
    = WS.Throw "TypeError" (mounted_service (Some open_socket) true)
  ∧ sendMessage sample_stringify (VStr "hi") (mounted_service None true)
    = WS.Normal ()
        {| WS.this := WS.this (mounted_service None true);
           WS.world := WS.world (mounted_service None true);
           WS.trace := WS.trace (mounted_service None true) ++
             [WS.ConsoleError "WebSocket is not connected" None] |}.
Proof.
  split_and!.
  - apply (proj1 (component_sendMessage sample_stringify (VStr "hi")
                    (mounted_service (Some open_socket) false))).
    reflexivity.
  - apply (proj1 (proj1 (proj2 (component_sendMessage sample_stringify (VStr "hi")
                                  (mounted_service (Some open_socket) true)))
                    eq_refl open_socket eq_refl eq_refl)).
    reflexivity.
  - apply (proj2 (proj1 (proj2 (component_sendMessage sample_stringify (VRef 0)
                                  (mounted_service (Some open_socket) true)))
                    eq_refl open_socket eq_refl eq_refl)).
    reflexivity.
  - apply (proj2 (proj2 (component_sendMessage sample_stringify (VStr "hi")
                           (mounted_service None true)))); [reflexivity|].
    intros k Hk. discriminate Hk.
Defined.

Lemma flag_outlives_disconnect_witness :
  let s1 := WS.state_of (WS.disconnect
                           (sample_run [WS.EvOpen]
                              (mounted_service (Some open_socket) false))) in
  App.isConnected (state (WS.world s1)) = true
  ∧ sendMessage sample_stringify (VStr "hi") s1
    = WS.Normal ()
        {| WS.this := WS.this s1; WS.world := WS.world s1;
           WS.trace := WS.trace s1 ++
             [WS.ConsoleError "WebSocket is not connected" None] |}
  ∧ App.isConnected (state (WS.world (sample_run [WS.EvClose] s1))) = false.
Proof.
  apply (flag_outlives_disconnect sample_parse sample_stringify "http:" "localhost"
           sample_socket 5%nat (VStr "hi") (mounted_service (Some open_socket) false)).
  apply mounted_service_mounted.
Defined.

Lemma unmount_restores_registrations_witness :
  ∃ cleanup s1 s2,
    mount "http:" "localhost" sample_socket 5%nat new_service = WS.Normal cleanup s1
    ∧ cleanup s1 = WS.Normal () s2
    ∧ (∀ c, WS.handlers_of c (WS.this s2) = WS.handlers_of c (WS.this new_service))
    ∧ WS.ws (WS.this s2) = WS.ws (WS.this s1)
    ∧ WS.world s2 = WS.world new_service
    ∧ WS.world (sample_run [WS.EvOpen; WS.EvMessage "chat"] s2) = WS.world s2.
Proof.
  destruct (unmount_restores_registrations sample_parse "http:" "localhost"
              sample_socket 5%nat new_service)
    as (cleanup & s1 & s2 & Hm & Hc & Hsets & Hws & Hw & Hquiet);
    [apply not_elem_of_nil..|].
  exists cleanup, s1, s2. split_and!; try done.
  apply Hquiet. by intros [].
Defined.

End Wiring.

(** ** components/ScheduledJobs.js: [formatDate] *)

Module Jobs.

Import JS.

(** The options object passed to [toLocaleString]. *)
Record DateTimeFormatOptions := {
  month : string;
  day : string;
  hour : string;
  minute : string }.

Section FormatDate.

(** The browser's [Date]: construction from a value and locale-dependent
    rendering; [locales] is the list passed as first argument. *)
Variable Date : Type.
Variable Date_new : Value → Date.
Variable toLocaleString : Date → list string → DateTimeFormatOptions → string.

Definition formatDate (dateString : Value) : string :=
  if negb (truthy dateString) then "Never"
  else toLocaleString (Date_new dateString) []
         {| month := "short"; day := "numeric";
            hour := "2-digit"; minute := "2-digit" |}.

(** C10. [formatDate] answers ['Never'] for [null], [undefined] and the
    empty string, and for every non-empty string the rendering of that date
    in the default locale with a short month, a numeric day and two-digit
    hour and minute. *)
Theorem formatDate_never_or_rendered (dateString : Value) :
  (dateString = VNull ∨ dateString = VUndefined ∨ dateString = VStr "" →
   formatDate dateString = "Never")
  ∧ (∀ s, dateString = VStr s → s ≠ "" →
     formatDate dateString
     = toLocaleString (Date_new (VStr s)) []
         {| month := "short"; day := "numeric";
            hour := "2-digit"; minute := "2-digit" |}).
Proof.
  split.
  - by intros [->| [->| ->]].
  - intros s -> Hs. unfold formatDate. cbn.
    destruct (String.eqb_spec s ""); [done|reflexivity].
Qed.

End FormatDate.

(** A stand-in renderer for examples: it shows which fields were asked for. *)
Definition show_fields (d : Value) (locales : list string)
    (o : DateTimeFormatOptions) : string :=
  match d with
  | VStr s => s +:+ " [" +:+ month o +:+ "," +:+ day o +:+ "," +:+ hour o
              +:+ "," +:+ minute o +:+ "]"
  | _ => "Invalid Date"
  end.

Lemma formatDate_never_or_rendered_witness :
  formatDate Value id show_fields VNull = "Never"
  ∧ formatDate Value id show_fields (VStr "2024-05-01T10:30:00")
    = show_fields (VStr "2024-05-01T10:30:00") []
        {| month := "short"; day := "numeric";
           hour := "2-digit"; minute := "2-digit" |}.
Proof.
  split.
  - apply (proj1 (formatDate_never_or_rendered Value id show_fields VNull)).
    by left.
  - apply (proj2 (formatDate_never_or_rendered Value id show_fields
                    (VStr "2024-05-01T10:30:00")) "2024-05-01T10:30:00");
      [reflexivity|discriminate].
Defined.

(** *** The expanded card *)

(** [useState(null)]: the id of the expanded job, or [null]. *)
Definition initialExpanded : Value := VNull.

(** [toggleExpanded]: the next value of [expandedJob]. *)
Definition toggleExpanded (expandedJob jobId : Value) : Value :=
  if strict_equal expandedJob jobId then VNull else jobId.

(** The details of a card are rendered when [expandedJob === job.id]. *)
Definition isExpanded (expandedJob : Value) (job : Obj) : bool :=
  strict_equal expandedJob (prop job "id").

(** X24. Clicking the chevron of a job whose id is not [null] flips that card and
    leaves every card with another non-null id collapsed, so at most one id
    is expanded at a time. A job whose id is [null] cannot be collapsed: its
    card is expanded after every click on it, as it is initially. *)
Theorem toggleExpanded_accordion (expandedJob : Value) (job other : Obj) :
  let e' := toggleExpanded expandedJob (prop job "id") in
  (prop job "id" ≠ VNull →
   isExpanded e' job = negb (isExpanded expandedJob job)
   ∧ (prop other "id" ≠ prop job "id" → prop other "id" ≠ VNull →
      isExpanded e' other = false))
  ∧ (prop job "id" = VNull →
     isExpanded e' job = true ∧ isExpanded initialExpanded job = true).
Proof.
  unfold toggleExpanded, isExpanded, strict_equal, initialExpanded. cbn zeta. split.
  - intros Hnn. destruct (bool_decide (expandedJob = prop job "id")) eqn:He; cbn.
    + split; [apply bool_decide_eq_false_2; congruence|].
      intros _ Hon. apply bool_decide_eq_false_2. congruence.
    + split; [by apply bool_decide_eq_true_2|].
      intros Hother _. apply bool_decide_eq_false_2. congruence.
  - intros ->. split; [|by apply bool_decide_eq_true_2].
    destruct (bool_decide (expandedJob = VNull)); by apply bool_decide_eq_true_2.
Qed.

Lemma toggleExpanded_accordion_witness :
  let a : Obj := {[ "id" := VNum 1 ]} in
  let b : Obj := {[ "id" := VNum 2 ]} in
  let unnamed : Obj := {[ "id" := VNull ]} in
  (isExpanded (toggleExpanded (VNum 2) (prop a "id")) a = negb (isExpanded (VNum 2) a)
   ∧ isExpanded (toggleExpanded (VNum 2) (prop a "id")) b = false)
  ∧ isExpanded (toggleExpanded (VNum 2) (prop unnamed "id")) unnamed = true
  ∧ isExpanded initialExpanded unnamed = true.
Proof.
  intros a b unnamed. split.
  - destruct (proj1 (toggleExpanded_accordion (VNum 2) a b)) as [Hflip Hother];
      [by vm_compute|].
    split; [exact Hflip|]. apply Hother; by vm_compute.
  - apply (proj2 (toggleExpanded_accordion (VNum 2) unnamed a)). by vm_compute.
Defined.

End Jobs.

(** ** The monitoring core (specification sections 3 and 4)

    The back end that implements the core is not among the sources; this
    module follows the specification's words. *)

Module Core.

Inductive Verdict := Unchanged | Trivial | Significant | Error | Unknown.

#[global] Instance Verdict_eq_dec : EqDecision Verdict.
Proof. solve_decision. Defined.

(** Modelled from the spec: the Snapshot of section 3 (the back end's model
    is missing). A snapshot holds its capture time, the cleaned content and
    the fingerprint, a stable hash of the normalized content. *)
Record Snapshot := {
  capturedAt : Z;
  content : string;
  fingerprint : Z }.

(** Modelled from the spec: the ChangeEvent of section 3 (missing from the
    sources): the baseline compared against, the new snapshot, the verdict. *)
Record ChangeEvent := {
  against : Snapshot;
  fetched : Snapshot;
  outcome : Verdict }.

(** Modelled from the spec: the Baseline Store of section 4.2 (missing from
    the sources): the accepted snapshot, if any, and the bounded history. *)
Record Store := {
  baseline : option Snapshot;
  history : list Snapshot }.

(** Modelled from the spec: [getBaseline] of section 4.2 (missing from the
    sources): the current accepted snapshot, or none for a source never
    successfully ingested. *)
Definition getBaseline (st : Store) : option Snapshot := baseline st.

(** The comparison stages of section 4.3. *)
Inductive Stage := FingerprintCheck | StructuralDistance | AmbiguousBand.

(** Modelled from the spec: the lifecycle state of a MonitoredSource
    (section 3; missing from the sources). *)
Inductive Lifecycle := Active | Paused | Deleted.

#[global] Instance Lifecycle_eq_dec : EqDecision Lifecycle.
Proof. solve_decision. Defined.

Section Classifier.

(** Configuration and collaborators: normalization and hashing of content,
    the similarity measure, the two thresholds, the optional deeper analysis
    for the ambiguous band, and the history retention count. *)
Variable normalize : string → string.
Variable hash : string → Z.
Variable distance : string → string → Q.
Variable trivialThreshold significantThreshold : Q.
Variable adjudicate : option (Snapshot → Snapshot → Verdict).
Variable retention : nat.

(** Modelled from the spec: building a snapshot from a fetch result
    [{content, fetchedAt}] (sections 3 and 6; missing from the sources). *)
Definition capture (text : string) (fetchedAt : Z) : Snapshot :=
  {| capturedAt := fetchedAt; content := text; fingerprint := hash (normalize text) |}.

(** Modelled from the spec: [commit] of section 4.2 (missing from the
    sources): replaces the baseline and appends the prior baseline to the
    bounded history. *)
Definition commit (new : Snapshot) (st : Store) : Store :=
  {| baseline := Some new;
     history := take retention (option_list (baseline st) ++ history st) |}.

(** Modelled from the spec: the Significance Classifier of section 4.3
    (missing from the sources). Stage 1 compares fingerprints; stage 2
    compares the distance with the two thresholds; stage 3 asks the deeper
    analysis, and is conservative toward Significant without one. The second
    component lists the stages that ran. *)
Definition classify (old new : Snapshot) : Verdict * list Stage :=
  if decide (fingerprint old = fingerprint new)
  then (Unchanged, [FingerprintCheck])
  else
    let d := distance (content old) (content new) in
    if Qlt_le_dec d trivialThreshold
    then (Trivial, [FingerprintCheck; StructuralDistance])
    else if Qlt_le_dec significantThreshold d
    then (Significant, [FingerprintCheck; StructuralDistance])
    else (match adjudicate with
          | Some deeper => deeper old new
          | None => Significant
          end, [FingerprintCheck; StructuralDistance; AmbiguousBand]).

(** What one fetch cycle leaves behind. *)
Record Cycle := {
  store : Store;
  verdict : Verdict;
  dispatched : list ChangeEvent;
  stages : list Stage }.

(** Modelled from the spec: the pipeline of one execution unit (sections 2,
    4.1 and 4.2; missing from the sources). A fetch error gives verdict Error
    and touches nothing; with no baseline the fetched snapshot becomes the
    baseline with verdict Unchanged; otherwise the classifier decides, and
    only Significant commits the new baseline and dispatches one event. *)
Definition execute (fetch : string + Snapshot) (st : Store) : Cycle :=
  match fetch with
  | inl _ => {| store := st; verdict := Error; dispatched := []; stages := [] |}
  | inr new =>
      match getBaseline st with
      | None =>
          {| store := {| baseline := Some new; history := history st |};
             verdict := Unchanged; dispatched := []; stages := [] |}
      | Some old =>
          let '(v, ran) := classify old new in
          match v with
          | Significant =>
              {| store := commit new st; verdict := Significant;
                 dispatched := [{| against := old; fetched := new;
                                   outcome := Significant |}];
                 stages := ran |}
          | _ => {| store := st; verdict := v; dispatched := []; stages := ran |}
          end
      end
  end.

(** Modelled from the spec: one fetch-compare-alert cycle with the discard
    rule of sections 3, 4.1, 5 and 8 (missing from the sources).
    [lifecycle] is the state of the source when its execution ends. An
    execution in flight is not aborted, but when the source has been paused
    or deleted meanwhile its outcome is discarded: no baseline write, no
    alert. *)
Definition cycle (lifecycle : Lifecycle) (fetch : string + Snapshot) (st : Store)
    : Cycle :=
  let c := execute fetch st in
  match lifecycle with
  | Active => c
  | Paused | Deleted =>
      {| store := st; verdict := verdict c; dispatched := []; stages := stages c |}
  end.

(** C6. When the fingerprints of the baseline and of the new snapshot are
    equal -- as they are for captured contents with the same normalized
    text -- the classifier answers Unchanged after the fingerprint check
    alone, and the cycle leaves the store as it was and dispatches nothing,
    whatever the lifecycle state of the source. *)
Theorem equal_fingerprints_unchanged (lifecycle : Lifecycle) (old new : Snapshot)
    (st : Store) :
  fingerprint old = fingerprint new →
  classify old new = (Unchanged, [FingerprintCheck])
  ∧ (getBaseline st = Some old →
     cycle lifecycle (inr new) st
     = {| store := st; verdict := Unchanged; dispatched := [];
          stages := [FingerprintCheck] |})
  ∧ (∀ text text' t t',
       normalize text = normalize text' →
       classify (capture text t) (capture text' t') = (Unchanged, [FingerprintCheck])).
Proof.
  intros Hfp.
  assert (classify old new = (Unchanged, [FingerprintCheck])) as Hc.
  { unfold classify. by rewrite decide_True. }
  split_and!; [done| |].
  - intros Hb. unfold cycle, execute. rewrite Hb, Hc. by destruct lifecycle.
  - intros text text' t t' Hn. unfold classify, capture. cbn.
    rewrite decide_True; [done|]. by rewrite Hn.
Qed.

(** C7 (amended). For a source with no accepted baseline that is still
    Active when its execution ends, a fetch that did not fail is accepted as
    the baseline. For every source with no accepted baseline, Active or
    not, the verdict is Unchanged, hence never Significant, and nothing is
    dispatched; when the source was paused or deleted in flight the store is
    left as it was. *)
Theorem first_ingest_is_baseline (lifecycle : Lifecycle) (new : Snapshot) (st : Store) :
  getBaseline st = None →
  let c := cycle lifecycle (inr new) st in
  (lifecycle = Active → getBaseline (store c) = Some new)
  ∧ (lifecycle ≠ Active → store c = st)
  ∧ verdict c = Unchanged
  ∧ verdict c ≠ Significant
  ∧ dispatched c = [].
Proof.
  intros Hb. unfold cycle, execute. rewrite Hb.
  destruct lifecycle; cbn;
    (split_and!; [try done|try done|reflexivity|discriminate|reflexivity]).
Qed.

End Classifier.

(** A configuration for examples: contents are normalized by identity and
    hashed by length; the distance is always one half, inside the band. *)
Definition sample_hash (s : string) : Z := Z.of_nat (String.length s).
Definition sample_distance (a b : string) : Q := (1 # 2)%Q.
Definition sample_old : Snapshot := capture id sample_hash "abc" 10.
Definition sample_new : Snapshot := capture id sample_hash "xyz" 20.
Definition sample_store : Store := {| baseline := Some sample_old; history := [] |}.
Definition empty_store : Store := {| baseline := None; history := [] |}.

Lemma equal_fingerprints_unchanged_witness :
  classify sample_distance (1 # 4)%Q (3 # 4)%Q None sample_old sample_new
  = (Unchanged, [FingerprintCheck])
  ∧ cycle sample_distance (1 # 4)%Q (3 # 4)%Q None 5 Active (inr sample_new) sample_store
    = {| store := sample_store; verdict := Unchanged; dispatched := [];
         stages := [FingerprintCheck] |}
  ∧ classify sample_distance (1 # 4)%Q (3 # 4)%Q None
      (capture id sample_hash "same" 1) (capture id sample_hash "same" 2)
    = (Unchanged, [FingerprintCheck]).
Proof.
  destruct (equal_fingerprints_unchanged id sample_hash sample_distance
              (1 # 4)%Q (3 # 4)%Q None 5 Active sample_old sample_new sample_store
              eq_refl)
    as (Hc & Hcycle & Hcap).
  split_and!; [exact Hc|by apply Hcycle|by apply Hcap].
Defined.

Lemma first_ingest_is_baseline_witness :
  let c := cycle sample_distance (1 # 4)%Q (3 # 4)%Q None 5 Active (inr sample_new)
             empty_store in
  getBaseline (store c) = Some sample_new
  ∧ verdict c = Unchanged
  ∧ verdict c ≠ Significant
  ∧ dispatched c = [].
Proof.
  destruct (first_ingest_is_baseline sample_distance (1 # 4)%Q (3 # 4)%Q None 5
              Active sample_new empty_store eq_refl)
    as (Hbase & _ & Hv & Hns & Hd).
  split_and!; [by apply Hbase|exact Hv|exact Hns|exact Hd].
Defined.

(** A source deleted while its first execution is in flight: the fetch
    succeeds, yet nothing is accepted as its baseline. *)
Lemma first_ingest_discarded_when_deleted :
  getBaseline empty_store = None
  ∧ getBaseline
      (store (cycle sample_distance (1 # 4)%Q (3 # 4)%Q None 5 Deleted (inr sample_new)
                empty_store))
    ≠ Some sample_new.
Proof. split; [reflexivity|discriminate]. Qed.

End Core.
